(** * Annotation quality control notebook: a shallow embedding

    The notebook [Quality_Control_Geimini.ipynb] loads a label list and
    a COCO annotation file, crops every annotated region of an image,
    asks a remote model whether the label fits and parses the answer.
    This file embeds the functions of its [Utils] cell
    ([read_csv], [read_json], [convert_bbox_coco_to_xyxy]), the label
    mapping, the crop of the annotation loop and the cell that parses
    the response, together with the parts of the Python library they
    run on (text, [re.sub] for the one pattern used, [str.strip],
    [csv.reader] in its default dialect, [json.loads], slicing) and of
    Pillow (the size that [Image.thumbnail] gives a picture). *)

From Stdlib Require Import ZArith NArith List Lia String Ascii.
From Stdlib Require Import Floats.SpecFloat.
From Stdlib Require Import QArith Qround Qabs Qpower Lqa.
From stdpp Require Import base option list gmap.

Local Open Scope N_scope.
Local Open Scope list_scope.

(** ** Text

    A Python [str] is a sequence of code points. *)

Abbreviation char := N (only parsing).
Abbreviation str := (list N) (only parsing).

(** Literals are written with three escapes: [\n] is a line feed,
    [\q] the double quote and [\\] the backslash itself. *)
Fixpoint lit (s : string) : str :=
  match s with
  | EmptyString => []
  | String "\" (String c s') =>
      (if Ascii.eqb c "n" then 10
       else if Ascii.eqb c "q" then 34
       else N_of_ascii c) :: lit s'
  | String c s' => N_of_ascii c :: lit s'
  end.

Definition ch (a : ascii) : char := N_of_ascii a.
Arguments ch : simpl never.
Arguments lit : simpl never.

Definition LF : char := 10.
Definition CR : char := 13.
Definition DQUOTE : char := 34.
Definition BACKTICK : char := 96.

Fixpoint startswith (p s : str) : bool :=
  match p, s with
  | [], _ => true
  | a :: p', b :: s' => (a =? b) && startswith p' s'
  | _ :: _, [] => false
  end.

(** [str.isspace] on one code point, as in the interpreter's table of
    white space. *)
Definition is_space (c : char) : bool :=
  ((9 <=? c) && (c <=? 13)) || ((28 <=? c) && (c <=? 32))
  || (c =? 133) || (c =? 160) || (c =? 5760)
  || ((8192 <=? c) && (c <=? 8202))
  || (c =? 8232) || (c =? 8233) || (c =? 8239) || (c =? 8287)
  || (c =? 12288).

Fixpoint lstrip (s : str) : str :=
  match s with
  | c :: s' => if is_space c then lstrip s' else s
  | [] => []
  end.

Definition rstrip (s : str) : str := rev (lstrip (rev s)).

(** [s.strip()] *)
Definition strip (s : str) : str := rstrip (lstrip s).

(** Decimal digits of a number, as [%d] prints it. *)
Fixpoint digits_of (fuel : nat) (n : N) (acc : str) : str :=
  match fuel with
  | O => acc
  | S fuel' =>
      let acc' := (48 + n mod 10) :: acc in
      if n <? 10 then acc' else digits_of fuel' (n / 10) acc'
  end.

Definition str_of_N (n : N) : str := digits_of (S (N.to_nat (N.log2 n))) n [].

(** ** Exceptions and results *)

Inductive exn :=
| FileNotFoundError (msg : str) (filename : option (list N))
| IsADirectoryError
| PermissionError
| UnicodeDecodeError
| JSONDecodeError (msg doc : str) (pos : nat)
| CsvError (msg : str)
| KeyError (key : Z)
| IndexError
| TypeError
| AttributeError
| ValueError
| OverflowError
| RecursionError
| ZeroDivisionError.

Inductive result (A : Type) :=
| Ok (a : A)
| Raise (e : exn).
Arguments Ok {A} a.
Arguments Raise {A} e.

(** Statements in sequence: the first exception raised ends the run. *)
#[global] Instance result_ret : MRet result := fun A a => Ok a.
#[global] Instance result_bind : MBind result := fun A B k m =>
  match m with
  | Ok a => k a
  | Raise e => Raise e
  end.

(** ** Numbers

    A number read from a JSON document is an [int] or a [float];
    floats are binary64. *)

Definition prec : Z := 53.
Definition emax : Z := 1024.

Inductive pynum :=
| PyInt (z : Z)
| PyFloat (f : spec_float).

(** [float(z)]: the nearest double, or [OverflowError]. *)
Definition float_of_int (z : Z) : result spec_float :=
  match binary_normalize prec emax z 0 false with
  | S754_infinity _ => Raise OverflowError
  | f => Ok f
  end.

(** [a + b] *)
Definition py_add (a b : pynum) : result pynum :=
  match a, b with
  | PyInt x, PyInt y => Ok (PyInt (x + y))
  | PyFloat x, PyFloat y => Ok (PyFloat (SFadd prec emax x y))
  | PyInt x, PyFloat y =>
      fx ← float_of_int x; Ok (PyFloat (SFadd prec emax fx y))
  | PyFloat x, PyInt y =>
      fy ← float_of_int y; Ok (PyFloat (SFadd prec emax x fy))
  end.

(** [a >= 0] *)
Definition py_nonneg (a : pynum) : bool :=
  match a with
  | PyInt z => (0 <=? z)%Z
  | PyFloat f => SFleb (S754_zero false) f
  end.

(** [l[i]] for a constant index [i >= 0]. *)
Definition getitem {A} (l : list A) (i : nat) : result A :=
  match nth_error l i with
  | Some a => Ok a
  | None => Raise IndexError
  end.

(** ** Utils: [convert_bbox_coco_to_xyxy] *)

Definition convert_bbox_coco_to_xyxy (bbox : list pynum) : result (list pynum) :=
  x1 ← getitem bbox 0;
  y1 ← getitem bbox 1;
  w ← getitem bbox 2;
  x2 ← py_add x1 w;
  h ← getitem bbox 3;
  y2 ← py_add y1 h;
  Ok [x1; y1; x2; y2].

(** ** The [json] module: [json.loads]

    The decoder of the library, for the default settings the notebook
    uses it with. A decoded document is a Python object. A float is
    kept as the literal that denotes it. *)

#[warnings="-register-all"]
Inductive value :=
| VNone
| VBool (b : bool)
| VInt (z : Z)
| VFloat (literal : str)
| VStr (s : str)
| VList (l : list value)
| VDict (d : gmap (list N) value).

(** The outcome of scanning at a position: a value and the text after
    it, a decode error together with the text at the position it is
    reported for, another exception, or a run out of the budget of
    steps that the model gives the scanner. *)
Inductive scan (A : Type) :=
| Scanned (a : A) (rest : str)
| Failed (msg : str) (where_ : str)
| Raised (e : exn)
| Exhausted.
Arguments Scanned {A} a rest.
Arguments Failed {A} msg where_.
Arguments Raised {A} e.
Arguments Exhausted {A}.

(** The limits of the interpreter that the decoder runs into: the
    depth of recursion, of which the model leaves every level to the
    decoder, and the number of digits of an integer literal. *)
Definition recursion_limit : nat := 1000.
Definition int_max_str_digits : N := 4300.

Definition is_json_ws (c : char) : bool :=
  (c =? 32) || (c =? 9) || (c =? 10) || (c =? 13).

Fixpoint skip_ws (s : str) : str :=
  match s with
  | c :: s' => if is_json_ws c then skip_ws s' else s
  | [] => []
  end.

Definition is_digit (c : char) : bool := (48 <=? c) && (c <=? 57).

Definition hexval (c : char) : option N :=
  if is_digit c then Some (c - 48)
  else if (97 <=? c) && (c <=? 102) then Some (c - 87)
  else if (65 <=? c) && (c <=? 70) then Some (c - 55)
  else None.

Definition hex4 (a b c d : char) : option N :=
  match hexval a, hexval b, hexval c, hexval d with
  | Some x, Some y, Some z, Some w => Some (((x * 16 + y) * 16 + z) * 16 + w)
  | _, _, _, _ => None
  end.

Definition is_high_surrogate (u : N) : bool := (55296 <=? u) && (u <=? 56319).
Definition is_low_surrogate (u : N) : bool := (56320 <=? u) && (u <=? 57343).
Definition join_surrogates (hi lo : N) : N :=
  65536 + ((hi - 55296) * 1024 + (lo - 56320)).

(** The character a one-letter escape stands for. *)
Definition unescape (e : char) : option char :=
  if e =? 34 then Some 34
  else if e =? 92 then Some 92
  else if e =? ch "/" then Some (ch "/")
  else if e =? ch "b" then Some 8
  else if e =? ch "f" then Some 12
  else if e =? ch "n" then Some 10
  else if e =? ch "r" then Some 13
  else if e =? ch "t" then Some 9
  else None.

Definition msg_unterminated : str := lit "Unterminated string starting at".
Definition msg_escape : str := lit "Invalid \\escape".
Definition msg_uescape : str := lit "Invalid \\uXXXX escape".
Definition msg_control : str := lit "Invalid control character at".
Definition msg_value : str := lit "Expecting value".
Definition msg_name : str :=
  lit "Expecting property name enclosed in double quotes".
Definition msg_colon : str := lit "Expecting ':' delimiter".
Definition msg_comma : str := lit "Expecting ',' delimiter".
Definition msg_extra : str := lit "Extra data".
Definition msg_bom : str := lit "Unexpected UTF-8 BOM (decode using utf-8-sig)".

(** [scanstring]: the text of a string whose opening quote was just
    read; [begin] is the text from that quote on. An escape [\u] needs
    four hexadecimal digits and a character behind them, and is
    reported at its [u] otherwise. *)
Fixpoint scanstring (begin s acc : str) : scan (list N) :=
  match s with
  | [] => Failed msg_unterminated begin
  | c :: s' =>
      if c =? 34 then Scanned (rev acc) s'
      else if c =? 92 then
        match s' with
        | [] => Failed msg_unterminated begin
        | e :: s'' =>
            if e =? ch "u" then
              match s'' with
              | h1 :: h2 :: h3 :: h4 :: ((_ :: _) as t) =>
                  match hex4 h1 h2 h3 h4 with
                  | None => Failed msg_uescape s'
                  | Some uni =>
                      if is_high_surrogate uni then
                        match t with
                        | b :: ((u :: g1 :: g2 :: g3 :: g4 :: ((_ :: _) as t')) as t1) =>
                            if (b =? 92) && (u =? ch "u") then
                              match hex4 g1 g2 g3 g4 with
                              | None => Failed msg_uescape t1
                              | Some uni2 =>
                                  if is_low_surrogate uni2
                                  then scanstring begin t'
                                         (join_surrogates uni uni2 :: acc)
                                  else scanstring begin t (uni :: acc)
                              end
                            else scanstring begin t (uni :: acc)
                        | _ => scanstring begin t (uni :: acc)
                        end
                      else scanstring begin t (uni :: acc)
                  end
              | _ => Failed msg_uescape s'
              end
            else
              match unescape e with
              | Some c' => scanstring begin s'' (c' :: acc)
              | None => Failed msg_escape s
              end
        end
      else if c <? 32 then Failed msg_control s
      else scanstring begin s' (c :: acc)
  end.

(** The longest run of decimal digits at the start of a text. *)
Fixpoint span_digits (s : str) : list N * list N :=
  match s with
  | c :: s' =>
      if is_digit c then let '(d, r) := span_digits s' in (c :: d, r)
      else ([], s)
  | [] => ([], [])
  end.

Definition value_of_digits (d : str) : Z :=
  fold_left (fun a c => (a * 10 + Z.of_N (c - 48))%Z) d 0%Z.

(** The number pattern of the decoder: an optional minus sign, then
    either a single zero or a non-zero digit followed by digits; then
    optionally a point with at least one digit; then optionally [e] or
    [E], an optional sign and at least one digit. With neither fraction
    nor exponent the number is an [int]. *)
Definition sign_part (s : str) : list N * list N :=
  match s with
  | c :: r => if c =? ch "-" then ([c], r) else ([], s)
  | [] => ([], s)
  end.

Definition int_part (s : str) : option (list N * list N) :=
  match s with
  | c :: r =>
      if c =? 48 then Some ([c], r)
      else if is_digit c then let '(d, r') := span_digits r in Some (c :: d, r')
      else None
  | [] => None
  end.

Definition frac_part (s : str) : list N * list N :=
  match s with
  | c :: r =>
      if c =? ch "." then
        match span_digits r with
        | ([], _) => ([], s)
        | (d, r') => (c :: d, r')
        end
      else ([], s)
  | [] => ([], s)
  end.

Definition exp_sign (s : str) : list N * list N :=
  match s with
  | g :: r => if (g =? ch "-") || (g =? ch "+") then ([g], r) else ([], s)
  | [] => ([], s)
  end.

Definition exp_part (s : str) : list N * list N :=
  match s with
  | c :: r =>
      if (c =? ch "e") || (c =? ch "E") then
        let '(sg, r1) := exp_sign r in
        match span_digits r1 with
        | ([], _) => ([], s)
        | (d, r') => (c :: sg ++ d, r')
        end
      else ([], s)
  | [] => ([], s)
  end.

Definition scan_number (s : str) : option (scan value) :=
  let '(sign, s1) := sign_part s in
  match int_part s1 with
  | None => None
  | Some (digits, s2) =>
      let '(frac, s3) := frac_part s2 in
      let '(expo, s4) := exp_part s3 in
      match frac, expo with
      | [], [] =>
          if int_max_str_digits <? N.of_nat (length digits)
          then Some (Raised ValueError)
          else
            let n := value_of_digits digits in
            Some (Scanned (VInt (match sign with [] => n | _ => - n end)%Z) s4)
      | _, _ => Some (Scanned (VFloat (sign ++ digits ++ frac ++ expo)) s4)
      end
  end.

(** A literal word at the start of a text. *)
Definition word (w : str) (v : value) (s : str) : option (scan value) :=
  if startswith w s then Some (Scanned v (drop (length w) s)) else None.

(** What is neither a string, an object nor an array; [None] when
    nothing of the kind starts the text. *)
Definition scan_atom (s : str) : option (scan value) :=
  match word (lit "null") VNone s with
  | Some r => Some r
  | None =>
  match word (lit "true") (VBool true) s with
  | Some r => Some r
  | None =>
  match word (lit "false") (VBool false) s with
  | Some r => Some r
  | None =>
  match scan_number s with
  | Some r => Some r
  | None =>
  match word (lit "NaN") (VFloat (lit "NaN")) s with
  | Some r => Some r
  | None =>
  match word (lit "Infinity") (VFloat (lit "Infinity")) s with
  | Some r => Some r
  | None => word (lit "-Infinity") (VFloat (lit "-Infinity")) s
  end end end end end end.

(** [scan_once] with the loops of [JSONObject] and [JSONArray]. Every
    call spends one unit of [n]; entering an object or an array spends
    one level of [depth], and raises [RecursionError] when none is
    left. [object_items] starts after the opening quote of a key,
    [array_items] at a value. *)
Fixpoint scan_once (n depth : nat) (s : str) : scan value :=
  match n with
  | O => Exhausted
  | S m =>
      match s with
      | [] => Failed msg_value s
      | c :: s' =>
          if c =? 34 then
            match scanstring s s' [] with
            | Scanned k r => Scanned (VStr k) r
            | Failed msg w => Failed msg w
            | Raised e => Raised e
            | Exhausted => Exhausted
            end
          else if c =? ch "{" then
            match depth with
            | O => Raised RecursionError
            | S depth' =>
                match skip_ws s' with
                | c1 :: r =>
                    if c1 =? ch "}" then Scanned (VDict ∅) r
                    else if c1 =? 34 then object_items m depth' r ∅
                    else Failed msg_name (c1 :: r)
                | [] => Failed msg_name []
                end
            end
          else if c =? ch "[" then
            match depth with
            | O => Raised RecursionError
            | S depth' =>
                match skip_ws s' with
                | c1 :: r =>
                    if c1 =? ch "]" then Scanned (VList []) r
                    else array_items m depth' (c1 :: r) []
                | [] => array_items m depth' [] []
                end
            end
          else
            match scan_atom s with
            | Some r => r
            | None => Failed msg_value s
            end
      end
  end
with object_items (n depth : nat) (s : str) (d : gmap (list N) value) : scan value :=
  match n with
  | O => Exhausted
  | S m =>
      match scanstring (34 :: s) s [] with
      | Scanned key s1 =>
          match skip_ws s1 with
          | c :: s2 =>
              if c =? ch ":" then
                match scan_once m depth (skip_ws s2) with
                | Scanned v s3 =>
                    let d' := <[key := v]> d in
                    match skip_ws s3 with
                    | c1 :: s4 =>
                        if c1 =? ch "}" then Scanned (VDict d') s4
                        else if c1 =? ch "," then
                          match skip_ws s4 with
                          | c2 :: s5 =>
                              if c2 =? 34 then object_items m depth s5 d'
                              else Failed msg_name (c2 :: s5)
                          | [] => Failed msg_name []
                          end
                        else Failed msg_comma (c1 :: s4)
                    | [] => Failed msg_comma []
                    end
                | Failed msg w => Failed msg w
                | Raised e => Raised e
                | Exhausted => Exhausted
                end
              else Failed msg_colon (c :: s2)
          | [] => Failed msg_colon []
          end
      | Failed msg w => Failed msg w
      | Raised e => Raised e
      | Exhausted => Exhausted
      end
  end
with array_items (n depth : nat) (s : str) (acc : list value) : scan value :=
  match n with
  | O => Exhausted
  | S m =>
      match scan_once m depth s with
      | Scanned v s1 =>
          match skip_ws s1 with
          | c :: s2 =>
              if c =? ch "]" then Scanned (VList (rev (v :: acc))) s2
              else if c =? ch "," then array_items m depth (skip_ws s2) (v :: acc)
              else Failed msg_comma (c :: s2)
          | [] => Failed msg_comma []
          end
      | Failed msg w => Failed msg w
      | Raised e => Raised e
      | Exhausted => Exhausted
      end
  end.

(** The position of a suffix [w] of [doc]. *)
Definition pos_of (doc w : str) : nat := length doc - length w.

(** [json.loads(s)] *)
Definition json_loads (s : str) : result value :=
  if startswith [65279] s then Raise (JSONDecodeError msg_bom s 0)
  else
    match scan_once (2 * length s + 1) recursion_limit (skip_ws s) with
    | Scanned v r =>
        match skip_ws r with
        | [] => Ok v
        | w => Raise (JSONDecodeError msg_extra s (pos_of s w))
        end
    | Failed msg w => Raise (JSONDecodeError msg s (pos_of s w))
    | Raised e => Raise e
    | Exhausted => Raise RecursionError
    end.

(** [d.get(key)] on a decoded document. *)
Definition get (v : value) (key : str) : result value :=
  match v with
  | VDict d => Ok (default VNone (d !! key))
  | _ => Raise AttributeError
  end.

(** [str(err)] for an exception built from a message alone. A decode
    error adds the line, column and position to its message. *)
Definition count_lf (s : str) : N :=
  N.of_nat (length (filter (fun c => c = LF) s)).

Fixpoint since_lf (s : str) (col : N) : N :=
  match s with
  | c :: s' => since_lf s' (if c =? LF then 1 else col + 1)
  | [] => col
  end.

Definition str_of_exn (e : exn) : option (list N) :=
  match e with
  | FileNotFoundError msg None => Some msg
  | JSONDecodeError msg doc pos =>
      let before := take pos doc in
      Some (msg ++ lit ": line " ++ str_of_N (count_lf before + 1)
                ++ lit " column " ++ str_of_N (since_lf before 1)
                ++ lit " (char " ++ str_of_N (N.of_nat pos) ++ lit ")")
  | CsvError msg => Some msg
  | _ => None
  end.

(** ** Files

    A file system maps a path to the text of the file stored there.
    What is at a path may also be a directory, a file that the
    process may not read, or bytes that are not text in the encoding
    in use; opening or reading then ends with another exception,
    which is why the bodies of the readers below take what the [with
    open] statement came to as an argument of its own. *)

Abbreviation files := (gmap (list N) (list N)) (only parsing).

(** Reading in text mode turns the line ends [\r\n] and [\r] into
    [\n]. *)
Fixpoint universal_newlines (s : str) : str :=
  match s with
  | c :: s' =>
      if c =? CR then
        match s' with
        | c' :: s'' => if c' =? LF then LF :: universal_newlines s''
                       else LF :: universal_newlines s'
        | [] => [LF]
        end
      else c :: universal_newlines s'
  | [] => []
  end.

(** [open(file_path, mode='r')] followed by reading the whole text. *)
Definition open_read (fs : files) (file_path : str) : option (list N) :=
  universal_newlines <$> fs !! file_path.

(** Iterating over an open file: its lines, each with its line end. *)
Fixpoint lines_from (cur s : str) : list (list N) :=
  match s with
  | c :: s' =>
      if c =? LF then rev (c :: cur) :: lines_from [] s'
      else lines_from (c :: cur) s'
  | [] => match cur with [] => [] | _ => [rev cur] end
  end.

Definition readlines (s : str) : list (list N) := lines_from [] s.

(** ** The [csv] module: [csv.reader] in the default dialect

    Fields are separated by commas and may be quoted with the double
    quote, which is doubled inside a quoted field; there is no escape
    character and the reader is not strict. *)

Inductive parser_state :=
| START_RECORD
| START_FIELD
| IN_FIELD
| IN_QUOTED_FIELD
| QUOTE_IN_QUOTED_FIELD
| EAT_CRNL.

Record reader := {
  state : parser_state;
  field : list N;             (* characters of the current field, last first *)
  fields : list (list N)      (* fields of the current record, last first *)
}.

Definition field_limit : N := 131072.

Definition msg_field_limit : str := lit "field larger than field limit (131072)".
Definition msg_newline : str :=
  lit "new-line character seen in unquoted field - do you need to open the file with newline=''?".

Definition parse_reset : reader :=
  {| state := START_RECORD; field := []; fields := [] |}.

Definition parse_save_field (r : reader) : reader :=
  {| state := state r; field := []; fields := rev (field r) :: fields r |}.

Definition parse_add_char (r : reader) (c : char) : result reader :=
  if field_limit <=? N.of_nat (length (field r))
  then Raise (CsvError msg_field_limit)
  else Ok {| state := state r; field := c :: field r; fields := fields r |}.

Definition set_state (st : parser_state) (r : reader) : reader :=
  {| state := st; field := field r; fields := fields r |}.

Definition COMMA : char := 44.

Definition is_newline (c : char) : bool := (c =? LF) || (c =? CR).

(** [parse_process_char]; [None] stands for the end of a line. *)
Definition parse_process_char (r : reader) (c : option N) : result reader :=
  match state r, c with
  | START_RECORD, None => Ok r
  | (START_RECORD | START_FIELD), Some k =>
      if is_newline k then
        match state r with
        | START_RECORD => Ok (set_state EAT_CRNL r)
        | _ => Ok (set_state EAT_CRNL (parse_save_field r))
        end
      else if k =? DQUOTE then Ok (set_state IN_QUOTED_FIELD r)
      else if k =? COMMA then Ok (set_state START_FIELD (parse_save_field r))
      else r' ← parse_add_char r k; Ok (set_state IN_FIELD r')
  | START_FIELD, None => Ok (set_state START_RECORD (parse_save_field r))
  | IN_FIELD, None => Ok (set_state START_RECORD (parse_save_field r))
  | IN_FIELD, Some k =>
      if is_newline k then Ok (set_state EAT_CRNL (parse_save_field r))
      else if k =? COMMA then Ok (set_state START_FIELD (parse_save_field r))
      else parse_add_char r k
  | IN_QUOTED_FIELD, None => Ok r
  | IN_QUOTED_FIELD, Some k =>
      if k =? DQUOTE then Ok (set_state QUOTE_IN_QUOTED_FIELD r)
      else parse_add_char r k
  | QUOTE_IN_QUOTED_FIELD, None =>
      Ok (set_state START_RECORD (parse_save_field r))
  | QUOTE_IN_QUOTED_FIELD, Some k =>
      if k =? DQUOTE then r' ← parse_add_char r k; Ok (set_state IN_QUOTED_FIELD r')
      else if k =? COMMA then Ok (set_state START_FIELD (parse_save_field r))
      else if is_newline k then Ok (set_state EAT_CRNL (parse_save_field r))
      else r' ← parse_add_char r k; Ok (set_state IN_FIELD r')
  | EAT_CRNL, None => Ok (set_state START_RECORD r)
  | EAT_CRNL, Some k =>
      if is_newline k then Ok r else Raise (CsvError msg_newline)
  end.

(** One line: its characters, then the end of the line. *)
Fixpoint parse_line (r : reader) (line : str) : result reader :=
  match line with
  | c :: line' => r' ← parse_process_char r (Some c); parse_line r' line'
  | [] => parse_process_char r None
  end.

(** The rows the reader yields from the lines it is given. A record
    ends with the line on which the parser is back at the start of a
    record; input that ends inside a field ends the record there. *)
Fixpoint rows_from (r : reader) (lines : list (list N)) : result (list (list (list N))) :=
  match lines with
  | line :: lines' =>
      r' ← parse_line r line;
      match state r' with
      | START_RECORD =>
          rows ← rows_from parse_reset lines';
          Ok (rev (fields r') :: rows)
      | _ => rows_from r' lines'
      end
  | [] =>
      match field r, state r with
      | [], (START_RECORD | START_FIELD | IN_FIELD
             | QUOTE_IN_QUOTED_FIELD | EAT_CRNL) => Ok []
      | _, _ => Ok [rev (fields (parse_save_field r))]
      end
  end.

Definition csv_reader (lines : list (list N)) : result (list (list (list N))) :=
  rows_from parse_reset lines.

(** ** Utils: [read_csv] and [read_json] *)

Definition msg_enoent : str := lit "No such file or directory".

(** The loop of [read_csv] over the rows of the reader. *)
Fixpoint collect (rows : list (list (list N))) (data_list : list (list N)) : list (list N) :=
  match rows with
  | row :: rows' =>
      match row with
      | first :: _ => collect rows' (data_list ++ [first])
      | [] => collect rows' data_list
      end
  | [] => data_list
  end.

Definition read_csv (fs : files) (file_path : str) : result (list (list N)) :=
  match open_read fs file_path with
  | None => Raise (FileNotFoundError msg_enoent (Some file_path))
  | Some text =>
      rows ← csv_reader (readlines text);
      Ok (collect rows [])
  end.

(** [open(file_path, 'r')] and the read of the whole text, over a
    file system that holds texts only. *)
Definition with_open (fs : files) (file_path : str) : result (list N) :=
  match open_read fs file_path with
  | None => Raise (FileNotFoundError msg_enoent (Some file_path))
  | Some text => Ok text
  end.

(** The [try] statement of [read_json]: [opened] is the text that was
    read, or the exception with which opening or reading ended. *)
Definition read_json_from (file_path : str) (opened : result (list N))
  : result value :=
  match text ← opened; json_loads text with
  | Ok doc => Ok doc
  | Raise (FileNotFoundError _ _) =>
      Raise (FileNotFoundError (lit "File not found: " ++ file_path) None)
  | Raise (JSONDecodeError _ doc pos) =>
      Raise (JSONDecodeError
               (lit "Invalid JSON format in file: " ++ file_path) doc pos)
  | Raise e => Raise e
  end.

Definition read_json (fs : files) (file_path : str) : result value :=
  read_json_from file_path (with_open fs file_path).

(** ** The label mapping

    [labels_mapping = {i:j for i,j in enumerate(labels, start=1)}] *)

Fixpoint enumerate {A} (l : list A) (start : Z) : list (Z * A) :=
  match l with
  | a :: l' => (start, a) :: enumerate l' (start + 1)%Z
  | [] => []
  end.

Definition dict_of_items {A} (items : list (Z * A)) : gmap Z A :=
  fold_left (fun m '(i, j) => <[i := j]> m) items ∅.

Definition labels_mapping (labels : list (list N)) : gmap Z (list N) :=
  dict_of_items (enumerate labels 1%Z).

(** [mapping[key]] *)
Definition subscript {A} (mapping : gmap Z A) (key : Z) : result A :=
  match mapping !! key with
  | Some a => Ok a
  | None => Raise (KeyError key)
  end.

(** ** The annotation loop, up to the crop *)

Record annotation := {
  category_id : Z;
  bbox : list pynum
}.

Definition pixel : Type := N * N * N.
Abbreviation image := (list (list pixel)) (only parsing).

(** A bound of a slice has to be an [int]. *)
Definition slice_index (v : pynum) : result Z :=
  match v with
  | PyInt z => Ok z
  | PyFloat _ => Raise TypeError
  end.

(** A bound brought into the range of a sequence of [len] items: a
    negative bound counts from the end, and what still falls outside
    is clipped. *)
Definition adjust (len i : Z) : Z :=
  (if i <? 0 then Z.max 0 (i + len) else Z.min i len)%Z.

(** [l[start:stop]] *)
Definition slice {A} (l : list A) (start stop : Z) : list A :=
  let len := Z.of_nat (length l) in
  let a := adjust len start in
  let b := adjust len stop in
  take (Z.to_nat (b - a)) (drop (Z.to_nat a) l).

(** [image_rgb[y1:y2, x1:x2]]: rows [y1:y2], and of each the columns
    [x1:x2]. *)
Definition crop (image_rgb : image) (x1 y1 x2 y2 : pynum) : result (list (list pixel)) :=
  r1 ← slice_index y1;
  r2 ← slice_index y2;
  c1 ← slice_index x1;
  c2 ← slice_index x2;
  Ok ((fun row => slice row c1 c2) <$> slice image_rgb r1 r2).

(** The crop of one annotation. *)
Definition crop_annotation (image_rgb : image) (a : annotation) : result (list (list pixel)) :=
  box ← convert_bbox_coco_to_xyxy (bbox a);
  match box with
  | [x1; y1; x2; y2] => crop image_rgb x1 y1 x2 y2
  | _ => Raise ValueError
  end.

(** The loop body before the picture is resized. *)
Definition annotate (mapping : gmap Z (list N)) (image_rgb : image) (a : annotation)
  : result (list N * list (list pixel)) :=
  annotated_label ← subscript mapping (category_id a);
  cropped ← crop_annotation image_rgb a;
  Ok (annotated_label, cropped).

(** ** The cell that parses the response *)

Record Part := { text : option (list N) }.
Record Content := { parts : option (list Part) }.
Record Candidate := { content : option Content }.
Record GenerateContentResponse := { candidates : option (list Candidate) }.

Definition fence_open : str := Eval vm_compute in lit "```json\n".
Definition fence_close : str := Eval vm_compute in lit "\n```".

(** Whether the pattern of the cell, the first or else the second
    fence, matches at the start of a text, and how long the match
    is. *)
Definition fence_at (s : str) : option nat :=
  if startswith fence_open s then Some (length fence_open)
  else if startswith fence_close s then Some (length fence_close)
  else None.

(** The substitution, left to right: [skip] counts the characters of
    the current match that are still to be dropped. *)
Fixpoint sub_from (skip : nat) (s : str) : str :=
  match s with
  | c :: s' =>
      match skip with
      | S k => sub_from k s'
      | O =>
          match fence_at s with
          | Some n => sub_from (pred n) s'
          | None => c :: sub_from 0 s'
          end
      end
  | [] => []
  end.

(** [re.sub(r"```json\n|\n```", "", raw_text)] *)
Definition re_sub_fence (raw_text : str) : str := sub_from 0 raw_text.

(** [response.candidates[0].content.parts[0].text] *)
Definition first_text (cs : list Candidate) : result (option (list N)) :=
  c ← getitem cs 0;
  match content c with
  | None => Raise AttributeError
  | Some ct =>
      match parts ct with
      | None => Raise TypeError
      | Some ps => p ← getitem ps 0; Ok (text p)
      end
  end.

(** What the cell prints. *)
Inductive printed :=
| PrintJson (response_json : value)
| PrintOriginalLabel (original_label : value)
| PrintCorrect (correct : value)
| PrintReasoning (reasoning : value)
| PrintCorrectLabel (correct_label : value)
| PrintFailedToDecode (json_string : list N)
| PrintNoCandidates.

(** The four fields read from the decoded response. *)
Definition extract (response_json : value) : result (list printed) :=
  original_label ← get response_json (lit "original_label");
  correct ← get response_json (lit "correct");
  reasoning ← get response_json (lit "reasoning");
  correct_label ← get response_json (lit "correct_label");
  Ok [PrintOriginalLabel original_label; PrintCorrect correct;
      PrintReasoning reasoning; PrintCorrectLabel correct_label].

(** The body of the [try] statement, for the text [json_string]. *)
Definition decode_and_print (json_string : str) : list printed * option exn :=
  match json_loads json_string with
  | Ok response_json =>
      match extract response_json with
      | Ok lines => (PrintJson response_json :: lines, None)
      | Raise e => ([PrintJson response_json], Some e)
      end
  | Raise (JSONDecodeError _ _ _) => ([PrintFailedToDecode json_string], None)
  | Raise e => ([], Some e)
  end.

(** The cell: what it prints, and the exception it ends with if one is
    not caught. *)
Definition parse_response (response : GenerateContentResponse) : list printed * option exn :=
  match candidates response with
  | Some (c :: cs) =>
      match first_text (c :: cs) with
      | Ok (Some raw_text) =>
          let json_string := strip (re_sub_fence raw_text) in
          decode_and_print json_string
      | Ok None => ([], Some TypeError)
      | Raise e => ([], Some e)
      end
  | Some [] | None => ([PrintNoCandidates], None)
  end.

(** A response with one candidate that holds one text. *)
Definition response_of_text (raw_text : str) : GenerateContentResponse :=
  {| candidates :=
       Some [ {| content := Some {| parts := Some [ {| text := Some raw_text |} ] |} |} ] |}.

(** A text [a] in front of [tail] in which the pattern of the cell
    matches nowhere: not inside [a], and not across its end. *)
Fixpoint unmatched (a tail : str) : bool :=
  match a with
  | c :: a' =>
      match fence_at (a ++ tail) with
      | None => unmatched a' tail
      | Some _ => false
      end
  | [] => true
  end.

(** The sum of two numbers: the sum in the integers of two integers,
    and otherwise the binary64 sum of the binary64 values nearest to
    the two. *)
Definition double_of (a : pynum) : spec_float :=
  match a with
  | PyInt z => binary_normalize prec emax z 0 false
  | PyFloat f => f
  end.

Definition sum_of (a b : pynum) : pynum :=
  match a, b with
  | PyInt x, PyInt y => PyInt (x + y)
  | _, _ => PyFloat (SFadd prec emax (double_of a) (double_of b))
  end.

(** An integer is out of range when the binary64 value nearest to it
    is infinite; a sum has no value when it pairs a float with an
    integer out of range. *)
Definition out_of_range (z : Z) : bool :=
  match binary_normalize prec emax z 0 false with
  | S754_infinity _ => true
  | _ => false
  end.

Definition sum_overflows (a b : pynum) : bool :=
  match a, b with
  | PyInt z, PyFloat _ | PyFloat _, PyInt z => out_of_range z
  | _, _ => false
  end.

(** A box whose first coordinate is a large integer and whose width
    is a float. *)
Definition wide_box : list pynum :=
  [PyInt (10 ^ 400); PyInt 0; PyFloat (S754_finite false 4503599627370496 (-52)); PyInt 0].

(** ** Pictures: the size that [Image.thumbnail] computes

    [Image.fromarray] makes of a crop of [height] rows and [width]
    columns a picture of that width and height, and
    [thumbnail([256,256])] resizes it in place to the size that its
    [preserve_aspect_ratio] computes, with the arithmetic of Python
    floats.

    A float is binary64. The values that arise here are zero or lie
    far inside the range of the normal numbers, so a float is modelled
    as the rational it stands for and an operation as the exact
    operation followed by rounding to 53 significant bits, to the
    nearest and to even on a tie. *)

Definition pow2 (e : Z) : Q := (2 ^ e)%Q.

(** The exponent of the power of two at or below a positive rational. *)
Definition ilog2 (q : Q) : Z :=
  let k := (Z.log2 (Qnum q) - Z.log2 (Zpos (Qden q)))%Z in
  if Qle_bool (pow2 k) q then k else (k - 1)%Z.

(** The nearest integer, the even one of two that are equally near. *)
Definition round_half_even (x : Q) : Z :=
  let f := Qfloor x in
  match (x - inject_Z f ?= 1 # 2)%Q with
  | Lt => f
  | Gt => (f + 1)%Z
  | Eq => if Z.even f then f else (f + 1)%Z
  end.

(** Rounding of a positive rational: its 53-bit significand is
    rounded, at the exponent that brings it between [2^52] and
    [2^53]. *)
Definition round64_pos (q : Q) : Q :=
  let e := (ilog2 q - 52)%Z in
  (inject_Z (round_half_even (q / pow2 e)) * pow2 e)%Q.

Definition round64 (q : Q) : Q :=
  match Qnum q with
  | Z0 => 0%Q
  | Zpos _ => Qred (round64_pos q)
  | Zneg _ => Qred (- round64_pos (- q))%Q
  end.

(** [a / b] on integers and on floats, [a * b] and [a - b] on floats. *)
Definition truediv (a b : Q) : Q := round64 (a / b).
Definition float_mul (a b : Q) : Q := round64 (a * b).
Definition float_sub (a b : Q) : Q := round64 (a - b).

(** [min(a, b, key=key)]: the first of the two whose key is least. *)
Definition min_by (key : Z -> Q) (a b : Z) : Z :=
  if Qle_bool (key a) (key b) then a else b.

(** [max(min(math.floor(number), math.ceil(number), key=key), 1)] *)
Definition round_aspect (number : Q) (key : Z -> Q) : Z :=
  Z.max (min_by key (Qfloor number) (Qceiling number)) 1.

(** [preserve_aspect_ratio()] for the size [[256, 256]]: [None] when
    the picture fits already, and the new size otherwise. *)
Definition preserve_aspect_ratio (width height : Z) : result (option (Z * Z)) :=
  let x := 256%Z in
  let y := 256%Z in
  if (width <=? x)%Z && (height <=? y)%Z then Ok None
  else if (height =? 0)%Z then Raise ZeroDivisionError
  else
    let aspect := truediv (inject_Z width) (inject_Z height) in
    if Qle_bool aspect (truediv (inject_Z x) (inject_Z y)) then
      Ok (Some (round_aspect
                  (float_mul (inject_Z y) aspect)
                  (fun n => Qabs (float_sub aspect (truediv (inject_Z n) (inject_Z y)))),
                y))
    else
      Ok (Some (x,
                round_aspect
                  (truediv (inject_Z x) aspect)
                  (fun n => if (n =? 0)%Z then 0%Q
                            else Qabs (float_sub aspect
                                         (truediv (inject_Z x) (inject_Z n)))))).

(** The size of the picture after [thumbnail([256,256])]. *)
Definition thumbnail_size (width height : Z) : result (Z * Z) :=
  size ← preserve_aspect_ratio width height;
  Ok (default (width, height) size).



(** The rational that a binary64 value of the standard library stands
    for, and quotients, products and differences on which the
    operations of the library are compared with the ones above. *)
Definition Q_of_float (f : spec_float) : Q :=
  match f with
  | S754_finite s m e =>
      Qred (inject_Z (if s then Z.neg m else Z.pos m) * pow2 e)
  | _ => 0%Q
  end.

Definition division_agrees (ab : Z * Z) : bool :=
  Qeq_bool (Q_of_float (SFdiv prec emax (double_of (PyInt ab.1)) (double_of (PyInt ab.2))))
           (truediv (inject_Z ab.1) (inject_Z ab.2)).

Definition quotients : list (Z * Z) :=
  [(1, 3); (2, 3); (1000, 10); (256, 100); (640, 480); (1, 257); (257, 1);
   (2147483647, 2147483646); (2147483646, 2147483647); (1, 2147483647);
   (9007199254740993, 1); (9007199254740995, 1); (9007199254740993, 2);
   (-1, 3); (0, 5); (7, 1024); (12345, 6789)]%Z.

Definition arithmetic_agrees (abcd : (Z * Z) * (Z * Z)) : bool :=
  let '((a, b), (c, d)) := abcd in
  let f := SFdiv prec emax (double_of (PyInt a)) (double_of (PyInt b)) in
  let g := SFdiv prec emax (double_of (PyInt c)) (double_of (PyInt d)) in
  let p := truediv (inject_Z a) (inject_Z b) in
  let q := truediv (inject_Z c) (inject_Z d) in
  Qeq_bool (Q_of_float (SFmul prec emax f g)) (float_mul p q)
  && Qeq_bool (Q_of_float (SFsub prec emax f g)) (float_sub p q)
  && Qeq_bool (Q_of_float (SFdiv prec emax f g)) (truediv p q).

Definition operand_pairs : list ((Z * Z) * (Z * Z)) :=
  [((1, 3), (2, 3)); ((1000, 10), (256, 3)); ((256, 1), (640, 480));
   ((640, 480), (171, 256)); ((1, 3), (1, 3)); ((1, 257), (257, 1));
   ((2147483647, 2147483646), (256, 255)); ((100, 1), (256, 2))]%Z.

(** Sizes of pictures, and what becomes of them. *)
Definition thumbnail_samples : list ((Z * Z) * (Z * Z)) :=
  [((1000, 10), (256, 3)); ((10, 1000), (3, 256)); ((640, 480), (256, 192));
   ((257, 1), (256, 1)); ((1, 257), (1, 256)); ((300, 300), (256, 256));
   ((256, 256), (256, 256)); ((100, 40), (100, 40)); ((1920, 1080), (256, 144));
   ((513, 3), (256, 2)); ((512, 3), (256, 2)); ((3, 512), (1, 256))]%Z.

Definition size_agrees (s : (Z * Z) * (Z * Z)) : bool :=
  match thumbnail_size s.1.1 s.1.2 with
  | Ok (x, y) => (x =? s.2.1)%Z && (y =? s.2.2)%Z
  | Raise _ => false
  end.


(** ** Notions used to state the properties *)

(** [sub] occurs in [s]. *)
Definition occurs_in (sub s : list N) : Prop :=
  exists before after, s = before ++ sub ++ after.

(** [part] is a run of consecutive items of [whole]. *)
Definition segment_of {A} (part whole : list A) : Prop :=
  exists before after, whole = before ++ part ++ after.

(** A scan that ended within the budget of steps: with a value and
    less text than it was given, with a decode error, or with the
    exception of one of the two limits. *)
Definition scan_ok {A} (s : list N) (r : scan A) : Prop :=
  match r with
  | Scanned _ rest => (length rest < length s)%nat
  | Failed _ _ => True
  | Raised e => e = RecursionError \/ e = ValueError
  | Exhausted => False
  end.

(** The float [m * 2^e]. *)
Definition dyadic (m e : Z) : spec_float := binary_normalize prec emax m e false.

(** *** Sample data *)

Definition labels_csv : gmap (list N) (list N) :=
  {[ lit "labels.csv" := lit "label\nplastic\nmetal\n" ]}.

Definition broken_json : gmap (list N) (list N) :=
  {[ lit "broken.json" := lit "{invalid" ]}.

(** A text of 1100 opening brackets, and an integer literal of 4301
    digits. *)
Definition deep_brackets : list N := repeat (ch "[") 1100.
Definition long_integer : list N := repeat (ch "1") 4301.

Definition deep_json : gmap (list N) (list N) :=
  {[ lit "deep.json" := deep_brackets ]}.

Definition long_integer_json : gmap (list N) (list N) :=
  {[ lit "long.json" := long_integer ]}.

(** The fenced answer of the specification and the object it holds. *)
Definition fenced_answer : list N :=
  lit "```json\n{\qoriginal_label\q:\qmetal\q,\qcorrect\q:false,\qreasoning\q:\qx\q,\qcorrect_label\q:\qplastic\q}\n```".

Definition answer_object : gmap (list N) value :=
  <[lit "original_label" := VStr (lit "metal")]>
    (<[lit "correct" := VBool false]>
       (<[lit "reasoning" := VStr (lit "x")]>
          (<[lit "correct_label" := VStr (lit "plastic")]> ∅))).



(** An answer that is not JSON, inside a fence. *)
Definition fenced_garbage : list N := lit "```json\noops\n```".

(** A picture of three rows and four columns, and an annotation whose
    box [[0.5, 1.0, 2.0, 1.0]] has float coordinates. *)
Definition px (n : N) : pixel := (n, n, n).

Definition sample_image : list (list pixel) :=
  [[px 0; px 1; px 2; px 3]; [px 10; px 11; px 12; px 13]; [px 20; px 21; px 22; px 23]].

Definition float_annotation : annotation :=
  {| category_id := 1;
     bbox := [PyFloat (dyadic 1 (-1)); PyFloat (dyadic 1 0);
              PyFloat (dyadic 2 0); PyFloat (dyadic 1 0)] |}.

Definition int_annotation : annotation :=
  {| category_id := 1; bbox := [PyInt 1; PyInt 1; PyInt 2; PyInt 5] |}.

(** ** Further notions for the properties of the utilities *)

(** A character that the reader takes as part of an unquoted field. *)
Definition plain_char (c : N) : bool :=
  negb ((c =? COMMA) || (c =? DQUOTE) || (c =? LF) || (c =? CR)).

(** A character of a line of unquoted fields. *)
Definition cell_char (c : N) : bool := plain_char c || (c =? COMMA).

(** A line of two or more unquoted fields, given by its first field
    and by what follows the first comma. *)
Definition line_of_fields (first_rest : list N * list N) : list N :=
  first_rest.1 ++ COMMA :: first_rest.2.

Definition fields_line (first_rest : list N * list N) : bool :=
  forallb plain_char first_rest.1 && forallb cell_char first_rest.2
  && (N.of_nat (length (line_of_fields first_rest)) <=? field_limit).

(** A line of such characters that fits the field limit. *)
Definition plain_line (l : list N) : bool :=
  forallb plain_char l && (N.of_nat (length l) <=? field_limit).

(** A line: text without a line end in it. *)
Definition line_chars (l : list N) : bool :=
  forallb (fun c => negb (is_newline c)) l.

(** The text of a file with the given lines, each ended by a line
    feed. *)
Definition text_of_lines (lines : list (list N)) : list N :=
  concat ((fun l => l ++ [LF]) <$> lines).

(** A character with which a JSON document, or the white space before
    it, can start. *)
Definition json_start (c : N) : bool :=
  is_json_ws c || (c =? 34) || (c =? ch "{") || (c =? ch "[")
  || (c =? ch "n") || (c =? ch "t") || (c =? ch "f") || (c =? ch "-")
  || is_digit c || (c =? ch "N") || (c =? ch "I") || (c =? 65279).

Definition no_backtick (s : list N) : bool :=
  forallb (fun c => negb (c =? BACKTICK)) s.

(** Whether a decoded document is an object. *)
Definition is_dict (v : value) : bool :=
  match v with VDict _ => true | _ => false end.

(** ** The annotation loop and the cell behind it

    The loop hands every crop to the imaging library and to the remote
    model. Both are outside the notebook: [thumbnail_of] stands for
    [Image.fromarray] followed by [thumbnail([256,256])], and
    [generate_content n] for the call of
    [client.models.generate_content] that is the [n]-th of the run,
    with the picture and the text it is given; [text_of] stands for
    the attribute [text] of a response. [prompt] is the text built
    before the loop. *)

Section AnnotationLoop.
Context {picture : Type}.
Variable thumbnail_of : list (list pixel) -> result picture.
Variable generate_content :
  nat -> picture -> list N -> result GenerateContentResponse.
Variable text_of : GenerateContentResponse -> result (option (list N)).
Variable prompt : list N.

(** What the loop shows. *)
Inductive shown :=
| ShowOriginalLabel (annotated_label : list N)
| ShowPicture (cropped_image : picture)
| ShowResponseText (response_text : option (list N)).

(** The state of the notebook that the loop changes: the requests
    sent so far, what was shown, and the variable [response]. *)
Record kernel := {
  requests : list (picture * list N);
  shown_so_far : list shown;
  response_var : option GenerateContentResponse
}.

(** [prompt + "\nAnnotation Label: " + annotated_label] *)
Definition request_text (annotated_label : list N) : list N :=
  prompt ++ lit "\nAnnotation Label: " ++ annotated_label.

(** One round of the loop: the state it leaves, and the exception
    that ends the loop if one is raised. *)
Definition loop_body (mapping : gmap Z (list N)) (image_rgb : list (list pixel))
    (k : kernel) (a : annotation) : kernel * option exn :=
  match annotate mapping image_rgb a with
  | Raise e => (k, Some e)
  | Ok (annotated_label, cropped) =>
      match thumbnail_of cropped with
      | Raise e => (k, Some e)
      | Ok cropped_image =>
          let out := shown_so_far k
                     ++ [ShowOriginalLabel annotated_label;
                         ShowPicture cropped_image] in
          let text := request_text annotated_label in
          let sent := requests k ++ [(cropped_image, text)] in
          match generate_content (length (requests k)) cropped_image text with
          | Raise e =>
              ({| requests := sent; shown_so_far := out;
                  response_var := response_var k |}, Some e)
          | Ok r =>
              match text_of r with
              | Raise e =>
                  ({| requests := sent; shown_so_far := out;
                      response_var := Some r |}, Some e)
              | Ok response_text =>
                  ({| requests := sent;
                      shown_so_far := out ++ [ShowResponseText response_text];
                      response_var := Some r |}, None)
              end
          end
      end
  end.

(** [for annotation in json_coco_data['annotations']: ...] *)
Fixpoint annotation_loop (mapping : gmap Z (list N)) (image_rgb : list (list pixel))
    (annotations : list annotation) (k : kernel) : kernel * option exn :=
  match annotations with
  | a :: rest =>
      match loop_body mapping image_rgb k a with
      | (k', None) => annotation_loop mapping image_rgb rest k'
      | (k', Some e) => (k', Some e)
      end
  | [] => (k, None)
  end.

(** The cell behind the loop reads the variable [response]; without
    a value for it the cell does not run ([None]). *)
Definition run_parse_cell (k : kernel) : option (list printed * option exn) :=
  parse_response <$> response_var k.

(** What the loop sends for an annotation. *)
Definition request_of (mapping : gmap Z (list N)) (image_rgb : list (list pixel))
    (a : annotation) : result (picture * list N) :=
  '(annotated_label, cropped) ← annotate mapping image_rgb a;
  cropped_image ← thumbnail_of cropped;
  Ok (cropped_image, request_text annotated_label).
End AnnotationLoop.

(** A notebook in which nothing was sent yet. *)
Definition fresh_kernel {picture : Type} : @kernel picture :=
  {| requests := []; shown_so_far := []; response_var := None |}.

(** Stand-ins for the two libraries, to run the loop on sample data:
    the crop as its own thumbnail, and a model that answers with the
    text it was sent. *)
Definition sample_thumbnail (cropped : list (list pixel)) : result (list (list pixel)) :=
  Ok cropped.

Definition echo_model (n : nat) (p : list (list pixel)) (text : list N)
  : result GenerateContentResponse :=
  Ok (response_of_text text).

Definition sample_text_of (r : GenerateContentResponse) : result (option (list N)) :=
  match candidates r with
  | Some (c :: _) =>
      match first_text [c] with
      | Ok t => Ok t
      | Raise _ => Ok None
      end
  | _ => Ok None
  end.

Definition sample_annotations : list annotation :=
  [ {| category_id := 1; bbox := [PyInt 0; PyInt 0; PyInt 2; PyInt 2] |};
    {| category_id := 2; bbox := [PyInt 1; PyInt 1; PyInt 2; PyInt 2] |} ].

Definition sample_mapping : gmap Z (list N) :=
  labels_mapping [lit "metal"; lit "plastic"].

(** A file that holds a web page instead of JSON. *)
Definition html_file : gmap (list N) (list N) :=
  {[ lit "a.json" := lit "<html>" ]}.

(** * Properties *)

(** ** Geometry *)

Lemma py_add_int (x y : Z) : py_add (PyInt x) (PyInt y) = Ok (PyInt (x + y)).
Proof. reflexivity. Qed.

Lemma py_add_float (x y : spec_float) :
  py_add (PyFloat x) (PyFloat y) = Ok (PyFloat (SFadd prec emax x y)).
Proof. reflexivity. Qed.

Lemma py_add_sum_of (a b : pynum) :
  py_add a b = if sum_overflows a b then Raise OverflowError else Ok (sum_of a b).
Proof.
  destruct a as [x | x], b as [y | y]; try reflexivity;
    unfold py_add, sum_overflows, out_of_range, float_of_int, sum_of, double_of;
    by destruct (binary_normalize prec emax _ 0 false).
Qed.

(** C2, as the function has it: for every box [x, y, w, h] of four
    numbers, those with [w >= 0] and [h >= 0] among them,
    [convert_bbox_coco_to_xyxy] returns [[x, y, x + w, y + h]], where
    the sum of two integers is their sum in the integers and any
    other sum is the binary64 sum of the operands' binary64 values;
    unless one of the two sums pairs a float with an integer beyond
    the range of the finite doubles, in which case it raises
    [OverflowError] and returns nothing. *)
Theorem convert_bbox_coco_to_xyxy_correct (x y w h : pynum) :
  convert_bbox_coco_to_xyxy [x; y; w; h]
  = (if sum_overflows x w || sum_overflows y h then Raise OverflowError
     else Ok [x; y; sum_of x w; sum_of y h])
  /\ (forall a b c d : Z,
        x = PyInt a -> y = PyInt b -> w = PyInt c -> h = PyInt d ->
        convert_bbox_coco_to_xyxy [x; y; w; h]
        = Ok [PyInt a; PyInt b; PyInt (a + c); PyInt (b + d)])
  /\ (forall a b c d : spec_float,
        x = PyFloat a -> y = PyFloat b -> w = PyFloat c -> h = PyFloat d ->
        convert_bbox_coco_to_xyxy [x; y; w; h]
        = Ok [PyFloat a; PyFloat b;
              PyFloat (SFadd prec emax a c); PyFloat (SFadd prec emax b d)]).
Proof.
  split; [|split].
  - unfold convert_bbox_coco_to_xyxy. cbn [getitem nth_error mbind result_bind].
    rewrite (py_add_sum_of x w), (py_add_sum_of y h).
    destruct (sum_overflows x w); [reflexivity|].
    by destruct (sum_overflows y h).
  - by intros a b c d -> -> -> ->.
  - by intros a b c d -> -> -> ->.
Qed.

Lemma convert_bbox_coco_to_xyxy_correct_witness :
  convert_bbox_coco_to_xyxy [PyInt 10; PyInt 10; PyInt 50; PyInt 50]
  = Ok [PyInt 10; PyInt 10; PyInt 60; PyInt 60].
Proof.
  exact (proj1 (proj2 (convert_bbox_coco_to_xyxy_correct
                         (PyInt 10) (PyInt 10) (PyInt 50) (PyInt 50)))
           10 10 50 50 eq_refl eq_refl eq_refl eq_refl)%Z.
Defined.

(** C2, as stated, fails: the box [[10**400, 0, 1.0, 0]] has width
    and height that are not negative, and the conversion raises
    [OverflowError] on it instead of returning a list. *)
Lemma convert_bbox_raises_on_wide_box :
  (exists x y w h,
      wide_box = [x; y; w; h] /\ py_nonneg w = true /\ py_nonneg h = true)
  /\ convert_bbox_coco_to_xyxy wide_box = Raise OverflowError
  /\ forall corners, convert_bbox_coco_to_xyxy wide_box <> Ok corners.
Proof.
  split; [|split].
  - eexists _, _, _, _. split; [reflexivity|]. split; reflexivity.
  - vm_compute. reflexivity.
  - intros corners. vm_compute. discriminate.
Qed.

(** The integers in range are those below [2^1024 - 2^970] in
    absolute value, as far as the samples show. *)
Lemma out_of_range_samples :
  out_of_range (2 ^ 1024 - 2 ^ 970 - 1) = false
  /\ out_of_range (2 ^ 1024 - 2 ^ 970) = true
  /\ out_of_range (- (2 ^ 1024 - 2 ^ 970 - 1)) = false
  /\ out_of_range (- (2 ^ 1024 - 2 ^ 970)) = true
  /\ out_of_range (10 ^ 400) = true
  /\ out_of_range (2 ^ 53 + 1) = false.
Proof. repeat split; vm_compute; reflexivity. Qed.

(** With integer coordinates the conversion always returns. *)
Lemma convert_bbox_int (x y w h : Z) :
  convert_bbox_coco_to_xyxy [PyInt x; PyInt y; PyInt w; PyInt h]
  = Ok [PyInt x; PyInt y; PyInt (x + w); PyInt (y + h)].
Proof. reflexivity. Qed.

(** ** Labels *)

Lemma collect_app (rows : list (list (list N))) (acc : list (list N)) :
  collect rows acc = acc ++ collect rows [].
Proof.
  revert acc. induction rows as [|row rows IH]; intros acc; cbn.
  - by rewrite app_nil_r.
  - destruct row as [|first rest]; [apply IH|].
    rewrite (IH (acc ++ [first])), (IH [first]).
    by rewrite <- app_assoc.
Qed.

(** The loop of [read_csv] keeps the first field of every row that has
    one, the first row included. *)
Lemma collect_cons (first : list N) (rest : list (list N)) (rows : list (list (list N))) :
  collect ((first :: rest) :: rows) [] = first :: collect rows [].
Proof. cbn. by rewrite collect_app. Qed.

Lemma collect_heads (rows : list (list (list N))) :
  collect rows [] = omap head rows.
Proof.
  induction rows as [|[|first rest] rows IH]; cbn; [done | exact IH |].
  by rewrite collect_app, IH.
Qed.

(** [read_csv] returns the first field of every row of the file that
    has a field, in the order of the file. *)
Lemma read_csv_heads (fs : gmap (list N) (list N)) (file_path content : list N)
    (rows : list (list (list N))) :
  fs !! file_path = Some content ->
  csv_reader (readlines (universal_newlines content)) = Ok rows ->
  read_csv fs file_path = Ok (omap head rows).
Proof.
  intros Hfile Hrows. unfold read_csv, open_read. rewrite Hfile. cbn.
  rewrite Hrows. cbn. by rewrite collect_heads.
Qed.

(** C1: on the file with header [label] and the rows [plastic] and
    [metal], [read_csv] returns the header together with the rows:
    the first row is kept like every other row that is not empty. *)
Theorem read_csv_keeps_header :
  read_csv labels_csv (lit "labels.csv")
  = Ok [lit "label"; lit "plastic"; lit "metal"].
Proof. vm_compute. reflexivity. Qed.

Lemma dict_of_items_lookup {A} (l : list A) (start k : Z) (m : gmap Z A) :
  fold_left (fun m '(i, j) => <[i := j]> m) (enumerate l start) m !! k
  = if decide (start <= k < start + Z.of_nat (length l))%Z
    then l !! Z.to_nat (k - start)
    else m !! k.
Proof.
  revert start m. induction l as [|a l IH]; intros start m; cbn [enumerate fold_left].
  - cbn. case_decide; [lia | done].
  - rewrite IH. cbn [length].
    destruct (decide (start = k)) as [->|Hne].
    + repeat case_decide; try lia.
      rewrite lookup_insert_eq.
      by replace (Z.to_nat (k - k)) with 0%nat by lia.
    + rewrite lookup_insert_ne by done.
      repeat case_decide; try lia; try done.
      replace (Z.to_nat (k - start)) with (S (Z.to_nat (k - (start + 1)))) by lia.
      done.
Qed.

Lemma labels_mapping_lookup (labels : list (list N)) (k : Z) :
  labels_mapping labels !! k
  = if decide (1 <= k <= Z.of_nat (length labels))%Z
    then labels !! Z.to_nat (k - 1)
    else None.
Proof.
  unfold labels_mapping, dict_of_items. rewrite dict_of_items_lookup.
  repeat case_decide; try lia; done.
Qed.

(** C5: the mapping built from the labels numbers them from one; for
    [a], [b], [c] it maps 1, 2 and 3 to them, and the lookup of an
    identifier that is not in the mapping, such as 4, raises a
    [KeyError] in the annotation loop instead of giving a default. *)
Theorem labels_mapping_one_indexed :
  (let m := labels_mapping [lit "a"; lit "b"; lit "c"] in
   subscript m 1 = Ok (lit "a") /\ subscript m 2 = Ok (lit "b")
   /\ subscript m 3 = Ok (lit "c") /\ subscript m 4 = Raise (KeyError 4))
  /\ (forall (labels : list (list N)) (i : nat) (label : list N),
        labels !! i = Some label ->
        subscript (labels_mapping labels) (Z.of_nat i + 1) = Ok label)
  /\ (forall (labels : list (list N)) (id : Z),
        (id < 1 \/ Z.of_nat (length labels) < id)%Z ->
        subscript (labels_mapping labels) id = Raise (KeyError id))
  /\ (forall (mapping : gmap Z (list N)) (image_rgb : list (list pixel)) (a : annotation),
        mapping !! category_id a = None ->
        annotate mapping image_rgb a = Raise (KeyError (category_id a))).
Proof.
  split; [|split; [|split]].
  - cbn zeta. unfold subscript. rewrite !labels_mapping_lookup. cbn.
    repeat split.
  - intros labels i label Hi. unfold subscript.
    rewrite labels_mapping_lookup.
    apply lookup_lt_Some in Hi as Hlt.
    case_decide; [|lia].
    replace (Z.to_nat (Z.of_nat i + 1 - 1)) with i by lia.
    by rewrite Hi.
  - intros labels id Hid. unfold subscript.
    rewrite labels_mapping_lookup. case_decide; [lia | done].
  - intros mapping image_rgb a Hnone. unfold annotate, subscript.
    by rewrite Hnone.
Qed.

Lemma labels_mapping_one_indexed_witness :
  subscript (labels_mapping [lit "metal"; lit "plastic"]) (Z.of_nat 1 + 1)
  = Ok (lit "plastic")
  /\ subscript (labels_mapping [lit "metal"; lit "plastic"]) 3
     = Raise (KeyError 3)
  /\ annotate ∅ [] {| category_id := 2; bbox := [] |} = Raise (KeyError 2).
Proof.
  destruct labels_mapping_one_indexed as (_ & Hin & Hout & Hloop).
  split; [|split].
  - apply Hin. reflexivity.
  - apply Hout. right. cbn. lia.
  - apply Hloop. reflexivity.
Defined.

(** ** The response cell *)

Lemma get_dict (d : gmap (list N) value) (key : list N) :
  get (VDict d) key = Ok (default VNone (d !! key)).
Proof. reflexivity. Qed.

Lemma extract_dict (d : gmap (list N) value) :
  extract (VDict d)
  = Ok [PrintOriginalLabel (default VNone (d !! lit "original_label"));
        PrintCorrect (default VNone (d !! lit "correct"));
        PrintReasoning (default VNone (d !! lit "reasoning"));
        PrintCorrectLabel (default VNone (d !! lit "correct_label"))].
Proof. reflexivity. Qed.

Lemma extract_never_reports_no_candidates (v : value) (lines : list printed) :
  extract v = Ok lines -> PrintNoCandidates ∉ lines.
Proof.
  destruct v; cbn; try discriminate.
  intros [= <-]. rewrite !not_elem_of_cons. repeat split; try discriminate.
  apply not_elem_of_nil.
Qed.

Lemma decode_and_print_never_reports_no_candidates (json_string : list N) :
  PrintNoCandidates ∉ (decode_and_print json_string).1.
Proof.
  unfold decode_and_print.
  destruct (json_loads json_string) as [v|e].
  - destruct (extract v) as [lines|e] eqn:He; cbn.
    + apply not_elem_of_cons. split; [discriminate|].
      by eapply extract_never_reports_no_candidates.
    + apply not_elem_of_cons. split; [discriminate | apply not_elem_of_nil].
  - destruct e; cbn; try apply not_elem_of_nil.
    apply not_elem_of_cons. split; [discriminate | apply not_elem_of_nil].
Qed.

(** C7: a response without candidates is reported by its own message
    and nothing is extracted; the message is printed in no other case,
    so the fields are only read when there is a candidate. *)
Theorem no_candidates_reported (response : GenerateContentResponse) :
  ((candidates response = None \/ candidates response = Some []) ->
   parse_response response = ([PrintNoCandidates], None))
  /\ (forall c cs, candidates response = Some (c :: cs) ->
        PrintNoCandidates ∉ (parse_response response).1)
  /\ (parse_response response <> ([PrintNoCandidates], None) ->
      exists c cs, candidates response = Some (c :: cs)).
Proof.
  unfold parse_response. split; [|split].
  - intros [-> | ->]; reflexivity.
  - intros c cs ->.
    destruct (first_text (c :: cs)) as [[raw_text|]|e]; cbn;
      try apply not_elem_of_nil.
    apply decode_and_print_never_reports_no_candidates.
  - destruct (candidates response) as [[|c cs]|]; try congruence.
    intros _. by exists c, cs.
Qed.

Lemma no_candidates_reported_witness :
  parse_response {| candidates := Some [] |} = ([PrintNoCandidates], None)
  /\ PrintNoCandidates ∉ (parse_response (response_of_text (lit "{}"))).1.
Proof.
  split.
  - apply (proj1 (no_candidates_reported {| candidates := Some [] |})).
    right. reflexivity.
  - eapply (proj1 (proj2 (no_candidates_reported (response_of_text (lit "{}"))))).
    reflexivity.
Defined.

(** *** Fence stripping *)

Lemma sub_from_skip (n : nat) (a b : list N) :
  length a = n -> sub_from n (a ++ b) = sub_from 0 b.
Proof.
  revert a. induction n as [|n IH]; intros a Hlen.
  - by destruct a.
  - destruct a as [|c a]; [discriminate|]. cbn. apply IH. by injection Hlen.
Qed.

Lemma fence_at_open (b : list N) :
  fence_at (fence_open ++ b) = Some (length fence_open).
Proof. reflexivity. Qed.

Lemma fence_at_close (b : list N) :
  fence_at (fence_close ++ b) = Some (length fence_close).
Proof. reflexivity. Qed.

(** A fence at the start of a text is deleted. *)
Lemma re_sub_fence_open (b : list N) :
  re_sub_fence (fence_open ++ b) = re_sub_fence b.
Proof. reflexivity. Qed.

Lemma re_sub_fence_close (b : list N) :
  re_sub_fence (fence_close ++ b) = re_sub_fence b.
Proof. reflexivity. Qed.

(** Text in which the pattern does not match is copied. *)
Lemma re_sub_fence_unmatched (a tail : list N) :
  unmatched a tail = true ->
  re_sub_fence (a ++ tail) = a ++ re_sub_fence tail.
Proof.
  unfold re_sub_fence. induction a as [|c a IH]; [done|].
  cbn [unmatched]. intros H.
  destruct (fence_at ((c :: a) ++ tail)) eqn:Hat; [discriminate|].
  change ((c :: a) ++ tail) with (c :: (a ++ tail)) in *.
  cbn [sub_from]. rewrite Hat. cbn. f_equal. by apply IH.
Qed.

(** Text without a backtick and without a line feed contains no start
    of the pattern. *)
Lemma unmatched_plain (a tail : list N) :
  forallb (fun c => negb (c =? BACKTICK) && negb (c =? LF)) a = true ->
  unmatched a tail = true.
Proof.
  induction a as [|c a IH]; [done|].
  cbn [forallb unmatched]. intros [[Hb Hl]%andb_prop Ha]%andb_prop.
  assert (fence_at ((c :: a) ++ tail) = None) as ->; [|by apply IH].
  apply negb_true_iff in Hb, Hl.
  unfold fence_at, fence_open, fence_close. cbn [app startswith].
  change 96 with BACKTICK. change 10 with LF.
  rewrite (N.eqb_sym BACKTICK c), (N.eqb_sym LF c), Hb, Hl. reflexivity.
Qed.

(** ** The outcomes of the decoder *)

Lemma skip_ws_length (s : list N) : (length (skip_ws s) <= length s)%nat.
Proof.
  induction s as [|c s IH]; cbn; [lia|].
  destruct (is_json_ws c); cbn; lia.
Qed.

Lemma scanstring_spec (n : nat) :
  forall begin s acc, (length s <= n)%nat ->
    match scanstring begin s acc with
    | Scanned _ r => (length r < length s)%nat
    | Failed _ _ => True
    | Raised _ => False
    | Exhausted => False
    end.
Proof.
  induction n as [|n IH]; intros begin s acc Hn.
  - destruct s; [exact I | cbn in Hn; lia].
  - destruct s as [|c s]; [exact I|].
    assert (Hrec : forall t acc', (length t < length (c :: s))%nat ->
               match scanstring begin t acc' with
               | Scanned _ r => (length r < length (c :: s))%nat
               | Failed _ _ => True
               | Raised _ => False
               | Exhausted => False
               end).
    { intros t acc' Ht. specialize (IH begin t acc' ltac:(cbn in *; lia)).
      destruct (scanstring begin t acc'); [lia | exact I | exact IH | exact IH]. }
    cbn [scanstring].
    destruct (c =? 34); [cbn [length]; lia|].
    destruct (c =? 92).
    + destruct s as [|e s]; [exact I|].
      destruct (e =? ch "u").
      * destruct s as [|h1 [|h2 [|h3 [|h4 [|t0 t]]]]]; try exact I.
        destruct (hex4 h1 h2 h3 h4) as [uni|]; [|exact I].
        destruct (is_high_surrogate uni); [|apply Hrec; cbn [length]; lia].
        destruct t as [|u [|g1 [|g2 [|g3 [|g4 [|t1 t']]]]]];
          try (apply Hrec; cbn [length]; lia).
        destruct ((t0 =? 92) && (u =? ch "u")); [|apply Hrec; cbn [length]; lia].
        destruct (hex4 g1 g2 g3 g4) as [uni2|]; [|exact I].
        destruct (is_low_surrogate uni2); apply Hrec; cbn [length]; lia.
      * destruct (unescape e) as [c'|]; [|exact I].
        apply Hrec. cbn [length]. lia.
    + destruct (c <? 32); [exact I|].
      apply Hrec. cbn [length]. lia.
Qed.

Lemma scanstring_shorter (begin s acc key r : list N) :
  scanstring begin s acc = Scanned key r -> (length r < length s)%nat.
Proof.
  intros H. pose proof (scanstring_spec (length s) begin s acc (le_n _)) as Hs.
  by rewrite H in Hs.
Qed.

Lemma scanstring_answers (begin s acc : list N) :
  scanstring begin s acc <> Exhausted.
Proof.
  intros H. pose proof (scanstring_spec (length s) begin s acc (le_n _)) as Hs.
  by rewrite H in Hs.
Qed.

Lemma span_digits_length (s d r : list N) :
  span_digits s = (d, r) -> (length r <= length s)%nat.
Proof.
  revert d r. induction s as [|c s IH]; intros d r; cbn.
  - inversion 1; subst. cbn. lia.
  - destruct (is_digit c).
    + destruct (span_digits s) as [d' r'] eqn:Hs.
      specialize (IH d' r' eq_refl). inversion 1; subst. lia.
    + inversion 1; subst. cbn. lia.
Qed.

Lemma sign_part_length (s sign r : list N) :
  sign_part s = (sign, r) -> (length r <= length s)%nat.
Proof.
  destruct s as [|c s]; cbn; [inversion 1; subst; cbn; lia|].
  destruct (c =? ch "-"); inversion 1; subst; cbn; lia.
Qed.

Lemma int_part_shorter (s digits r : list N) :
  int_part s = Some (digits, r) -> (length r < length s)%nat.
Proof.
  destruct s as [|c s]; cbn; [discriminate|].
  destruct (c =? 48); [inversion 1; subst; lia|].
  destruct (is_digit c); [|discriminate].
  destruct (span_digits s) as [d r'] eqn:Hs.
  apply span_digits_length in Hs. inversion 1; subst. lia.
Qed.

Lemma frac_part_length (s frac r : list N) :
  frac_part s = (frac, r) -> (length r <= length s)%nat.
Proof.
  destruct s as [|c s]; cbn; [inversion 1; subst; cbn; lia|].
  destruct (c =? ch "."); [|inversion 1; subst; cbn; lia].
  destruct (span_digits s) as [[|d0 d] r'] eqn:Hs;
    apply span_digits_length in Hs; inversion 1; subst; cbn; lia.
Qed.

Lemma exp_sign_length (s sg r : list N) :
  exp_sign s = (sg, r) -> (length r <= length s)%nat.
Proof.
  destruct s as [|g s]; cbn; [inversion 1; subst; cbn; lia|].
  destruct ((g =? ch "-") || (g =? ch "+")); inversion 1; subst; cbn; lia.
Qed.

Lemma exp_part_length (s expo r : list N) :
  exp_part s = (expo, r) -> (length r <= length s)%nat.
Proof.
  destruct s as [|c s]; cbn; [inversion 1; subst; cbn; lia|].
  destruct ((c =? ch "e") || (c =? ch "E")); [|inversion 1; subst; cbn; lia].
  destruct (exp_sign s) as [sg r1] eqn:Hsg. apply exp_sign_length in Hsg.
  destruct (span_digits r1) as [[|d0 d] r'] eqn:Hs;
    apply span_digits_length in Hs; inversion 1; subst; cbn; lia.
Qed.

Lemma scan_number_ok (s : list N) (r : scan value) :
  scan_number s = Some r -> scan_ok s r.
Proof.
  unfold scan_number.
  destruct (sign_part s) as [sign s1] eqn:H1. apply sign_part_length in H1.
  destruct (int_part s1) as [[digits s2]|] eqn:H2; [|discriminate].
  apply int_part_shorter in H2.
  destruct (frac_part s2) as [frac s3] eqn:H3. apply frac_part_length in H3.
  destruct (exp_part s3) as [expo s4] eqn:H4. apply exp_part_length in H4.
  destruct frac, expo;
    try destruct (int_max_str_digits <? N.of_nat (length digits));
    inversion 1; subst; cbn; first [lia | by right].
Qed.

Lemma word_ok (w : list N) (v : value) (s : list N) (r : scan value) :
  w <> [] -> word w v s = Some r -> scan_ok s r.
Proof.
  unfold word. intros Hw. destruct (startswith w s) eqn:Hs; [|discriminate].
  inversion 1; subst. cbn. rewrite length_drop.
  destruct w as [|a w]; [done|]. destruct s as [|b s]; [discriminate|].
  cbn. lia.
Qed.

Lemma scan_atom_ok (s : list N) (r : scan value) :
  scan_atom s = Some r -> scan_ok s r.
Proof.
  unfold scan_atom.
  repeat match goal with
         | |- context [word ?w ?x s] =>
             let H := fresh "H" in
             destruct (word w x s) as [?|] eqn:H;
             [inversion 1; subst; by eapply word_ok; [|exact H] |]
         | |- context [scan_number s] =>
             let H := fresh "H" in
             destruct (scan_number s) as [?|] eqn:H;
             [inversion 1; subst; by eapply scan_number_ok |]
         end.
  discriminate.
Qed.

Lemma scan_ok_weaken {A} (s s' : list N) (r : scan A) :
  scan_ok s' r -> (length s' <= length s)%nat -> scan_ok s r.
Proof. destruct r; cbn; [lia | done | done | done]. Qed.

Lemma skip_ws_cons (s : list N) (c : N) (r : list N) :
  skip_ws s = c :: r -> (S (length r) <= length s)%nat.
Proof. intros H. pose proof (skip_ws_length s) as Hl. rewrite H in Hl. exact Hl. Qed.

Lemma scan_fuel (n : nat) :
  (forall depth s, (2 * length s + 1 <= n)%nat -> scan_ok s (scan_once n depth s))
  /\ (forall depth s d, (2 * length s + 2 <= n)%nat ->
        scan_ok s (object_items n depth s d))
  /\ (forall depth s acc, (2 * length s + 2 <= n)%nat ->
        scan_ok s (array_items n depth s acc)).
Proof.
  induction n as [|n (IHscan & IHobj & IHarr)].
  { repeat split; intros; lia. }
  split; [|split].
  - intros depth s Hn. destruct s as [|c s']; [exact I|].
    cbn [scan_once length] in *.
    destruct (c =? 34).
    { pose proof (scanstring_spec (length s') (c :: s') s' [] (le_n _)) as Hs.
      destruct (scanstring (c :: s') s' []); cbn in *; [lia | done | done | done]. }
    destruct (c =? ch "{").
    { destruct depth as [|depth']; [by left|].
      destruct (skip_ws s') as [|c1 r] eqn:Hws; [exact I|].
      apply skip_ws_cons in Hws.
      destruct (c1 =? ch "}"); [cbn; lia|].
      destruct (c1 =? 34); [|exact I].
      eapply scan_ok_weaken; [apply IHobj|]; cbn; lia. }
    destruct (c =? ch "[").
    { destruct depth as [|depth']; [by left|].
      destruct (skip_ws s') as [|c1 r] eqn:Hws.
      - eapply scan_ok_weaken; [apply IHarr|]; cbn; lia.
      - apply skip_ws_cons in Hws.
        destruct (c1 =? ch "]"); [cbn; lia|].
        eapply scan_ok_weaken; [apply IHarr|]; cbn; lia. }
    destruct (scan_atom (c :: s')) as [r|] eqn:Ha; [|exact I].
    by apply scan_atom_ok.
  - intros depth s d Hn. cbn [object_items].
    pose proof (scanstring_spec (length s) (34 :: s) s [] (le_n _)) as Hs.
    destruct (scanstring (34 :: s) s []) as [key s1| | |]; [|done..].
    destruct (skip_ws s1) as [|c s2] eqn:Hws1; [exact I|].
    apply skip_ws_cons in Hws1.
    destruct (c =? ch ":"); [|exact I].
    pose proof (skip_ws_length s2) as Hws2.
    pose proof (IHscan depth (skip_ws s2) ltac:(lia)) as Hv.
    destruct (scan_once n depth (skip_ws s2)) as [v s3| | |]; [|done..].
    cbn in Hv.
    destruct (skip_ws s3) as [|c1 s4] eqn:Hws3; [exact I|].
    apply skip_ws_cons in Hws3.
    destruct (c1 =? ch "}"); [cbn; lia|].
    destruct (c1 =? ch ","); [|exact I].
    destruct (skip_ws s4) as [|c2 s5] eqn:Hws4; [exact I|].
    apply skip_ws_cons in Hws4.
    destruct (c2 =? 34); [|exact I].
    eapply scan_ok_weaken; [apply IHobj|]; lia.
  - intros depth s acc Hn. cbn [array_items].
    pose proof (IHscan depth s ltac:(lia)) as Hv.
    destruct (scan_once n depth s) as [v s1| | |]; [|done..].
    cbn in Hv.
    destruct (skip_ws s1) as [|c s2] eqn:Hws1; [exact I|].
    apply skip_ws_cons in Hws1.
    destruct (c =? ch "]"); [cbn; lia|].
    destruct (c =? ch ","); [|exact I].
    pose proof (skip_ws_length s2) as Hws2.
    eapply scan_ok_weaken; [apply IHarr|]; lia.
Qed.

(** [json.loads] returns a document, raises a decode error, or ends
    with the [RecursionError] or the [ValueError] of the two limits:
    the budget of steps of the model is never used up. *)
Lemma json_loads_outcomes (s : list N) :
  (exists doc, json_loads s = Ok doc)
  \/ (exists msg pos, json_loads s = Raise (JSONDecodeError msg s pos))
  \/ json_loads s = Raise RecursionError
  \/ json_loads s = Raise ValueError.
Proof.
  unfold json_loads.
  destruct (startswith [65279] s); [right; left; eauto|].
  pose proof (skip_ws_length s) as Hws.
  pose proof (proj1 (scan_fuel (2 * length s + 1)) recursion_limit (skip_ws s)
                ltac:(lia)) as Hok.
  destruct (scan_once (2 * length s + 1) recursion_limit (skip_ws s))
    as [v r|msg w|e|]; [|right; left; eauto| |done].
  - destruct (skip_ws r); [left | right; left]; eauto.
  - destruct Hok as [-> | ->]; [right; right; by left | right; right; by right].
Qed.

(** ** [read_json] *)

Lemma Raise_inj {A} (e1 e2 : exn) : @Raise A e1 = Raise e2 -> e1 = e2.
Proof. by intros [= ->]. Qed.

Lemma occurs_in_middle (before sub after : list N) :
  occurs_in sub (before ++ sub ++ after).
Proof. by exists before, after. Qed.

Lemma read_json_missing (fs : gmap (list N) (list N)) (file_path : list N) :
  fs !! file_path = None ->
  read_json fs file_path
  = Raise (FileNotFoundError (lit "File not found: " ++ file_path) None).
Proof. intros H. unfold read_json, with_open, open_read. by rewrite H. Qed.

Lemma read_json_text (fs : gmap (list N) (list N)) (file_path content : list N) :
  fs !! file_path = Some content ->
  read_json fs file_path
  = read_json_from file_path (Ok (universal_newlines content)).
Proof. intros H. unfold read_json, with_open, open_read. by rewrite H. Qed.

(** C4, as the function has it: [read_json] returns the decoded
    document, or raises [FileNotFoundError] when opening the file
    does, or [JSONDecodeError] when the decoder rejects the text, and
    the message of either includes the path. Any other exception
    passes unchanged and without the path: the one with which opening
    or reading the file ended (the path is a directory, the file may
    not be read, its bytes are not text), or the one with which the
    decoder ended, the [RecursionError] of a text nested deeper than
    the recursion limit or the [ValueError] of an integer literal of
    more than 4300 digits. Nothing is returned in any of the
    failures. *)
Theorem read_json_outcomes (file_path : list N) (opened : result (list N)) :
  match opened with
  | Ok text =>
      (exists doc,
          json_loads text = Ok doc
          /\ read_json_from file_path opened = Ok doc)
      \/ (exists msg pos,
            json_loads text = Raise (JSONDecodeError msg text pos)
            /\ read_json_from file_path opened
               = Raise (JSONDecodeError
                          (lit "Invalid JSON format in file: " ++ file_path)
                          text pos))
      \/ (json_loads text = Raise RecursionError
          /\ read_json_from file_path opened = Raise RecursionError)
      \/ (json_loads text = Raise ValueError
          /\ read_json_from file_path opened = Raise ValueError)
  | Raise (FileNotFoundError _ _) =>
      read_json_from file_path opened
      = Raise (FileNotFoundError (lit "File not found: " ++ file_path) None)
  | Raise (JSONDecodeError _ doc pos) =>
      read_json_from file_path opened
      = Raise (JSONDecodeError
                 (lit "Invalid JSON format in file: " ++ file_path) doc pos)
  | Raise e => read_json_from file_path opened = Raise e
  end
  /\ (forall e, read_json_from file_path opened = Raise e ->
        match e with
        | FileNotFoundError _ _ | JSONDecodeError _ _ _ =>
            exists message,
              str_of_exn e = Some message /\ occurs_in file_path message
        | _ =>
            opened = Raise e
            \/ exists text,
                 opened = Ok text /\ json_loads text = Raise e
                 /\ (e = RecursionError \/ e = ValueError)
        end)
  /\ (forall fs : gmap (list N) (list N),
        read_json fs file_path
        = read_json_from file_path (with_open fs file_path)
        /\ match fs !! file_path with
           | None =>
               read_json fs file_path
               = Raise (FileNotFoundError
                          (lit "File not found: " ++ file_path) None)
           | Some content =>
               with_open fs file_path = Ok (universal_newlines content)
           end).
Proof.
  assert (Hfnf : exists message,
             str_of_exn (FileNotFoundError (lit "File not found: " ++ file_path) None)
             = Some message /\ occurs_in file_path message).
  { eexists. split; [reflexivity|].
    exists (lit "File not found: "), []. by rewrite app_nil_r. }
  assert (Hjson : forall doc pos, exists message,
             str_of_exn (JSONDecodeError
                           (lit "Invalid JSON format in file: " ++ file_path) doc pos)
             = Some message /\ occurs_in file_path message).
  { intros doc pos. eexists. split; [reflexivity|].
    rewrite <- app_assoc. apply occurs_in_middle. }
  split; [|split].
  - destruct opened as [text | e].
    + unfold read_json_from. cbn [mbind result_bind].
      destruct (json_loads_outcomes text)
        as [[doc Hdoc] | [(msg & pos & Herr) | [Herr | Herr]]].
      * left. exists doc. by rewrite Hdoc.
      * right. left. exists msg, pos. by rewrite Herr.
      * right. right. left. by rewrite Herr.
      * right. right. right. by rewrite Herr.
    + by destruct e.
  - intros e He. destruct opened as [text | e0].
    + unfold read_json_from in He. cbn [mbind result_bind] in He.
      destruct (json_loads_outcomes text)
        as [[doc Hdoc] | [(msg & pos & Herr) | [Herr | Herr]]];
        rewrite ?Hdoc, ?Herr in He; try discriminate He;
        apply Raise_inj in He as <-.
      * apply Hjson.
      * right. exists text. split; [done|]. split; [done|]. by left.
      * right. exists text. split; [done|]. split; [done|]. by right.
    + destruct e0; cbn in He; apply Raise_inj in He as <-;
        first [apply Hfnf | apply Hjson | by left].
  - intros fs. split; [reflexivity|].
    destruct (fs !! file_path) as [content|] eqn:Hfile.
    + unfold with_open, open_read. by rewrite Hfile.
    + by apply read_json_missing.
Qed.

Lemma read_json_outcomes_witness :
  (exists message,
      str_of_exn (FileNotFoundError (lit "File not found: " ++ lit "missing.json") None)
      = Some message /\ occurs_in (lit "missing.json") message)
  /\ read_json_from (lit "src") (Raise IsADirectoryError) = Raise IsADirectoryError.
Proof.
  split.
  - exact (proj1 (proj2 (read_json_outcomes (lit "missing.json")
                           (with_open ∅ (lit "missing.json"))))
             _ eq_refl).
  - exact (proj1 (read_json_outcomes (lit "src") (Raise IsADirectoryError))).
Defined.

(** C4, as stated, fails: on a file of 1100 opening brackets
    [read_json] ends with a [RecursionError], and on a file that holds
    an integer literal of 4301 digits with a [ValueError]; neither is
    one of the two kinds, and neither carries the path. *)
Lemma read_json_other_exceptions :
  read_json deep_json (lit "deep.json") = Raise RecursionError
  /\ read_json long_integer_json (lit "long.json") = Raise ValueError
  /\ str_of_exn RecursionError = None
  /\ str_of_exn ValueError = None.
Proof. repeat split; vm_compute; reflexivity. Qed.

(** ** The response cell, continued *)

Lemma re_sub_fence_fenced (body : list N) :
  unmatched body fence_close = true ->
  re_sub_fence (fence_open ++ body ++ fence_close) = body.
Proof.
  intros H. rewrite re_sub_fence_open, re_sub_fence_unmatched by done.
  change (re_sub_fence fence_close) with (@nil N). by rewrite app_nil_r.
Qed.

Lemma parse_response_text (raw_text : list N) :
  parse_response (response_of_text raw_text)
  = decode_and_print (strip (re_sub_fence raw_text)).
Proof. reflexivity. Qed.

(** C3: for a response whose text is a JSON object inside a fence, the
    cell strips the fence, decodes the object and reads the four
    fields [original_label], [correct], [reasoning] and
    [correct_label] from it; a field the object does not have is read
    as [None], without an error. The fenced answer of the
    specification gives [metal], [False], [x] and [plastic]. *)
Theorem parse_response_fenced_object :
  parse_response (response_of_text fenced_answer)
  = ([PrintJson (VDict answer_object);
      PrintOriginalLabel (VStr (lit "metal")); PrintCorrect (VBool false);
      PrintReasoning (VStr (lit "x")); PrintCorrectLabel (VStr (lit "plastic"))],
     None)
  /\ (forall (body : list N) (d : gmap (list N) value),
        unmatched body fence_close = true ->
        json_loads (strip body) = Ok (VDict d) ->
        parse_response (response_of_text (fence_open ++ body ++ fence_close))
        = ([PrintJson (VDict d);
            PrintOriginalLabel (default VNone (d !! lit "original_label"));
            PrintCorrect (default VNone (d !! lit "correct"));
            PrintReasoning (default VNone (d !! lit "reasoning"));
            PrintCorrectLabel (default VNone (d !! lit "correct_label"))],
           None))
  /\ (forall (d : gmap (list N) value) (key : list N),
        d !! key = None -> get (VDict d) key = Ok VNone)
  /\ (forall (d : gmap (list N) value) (key : list N) (v : value),
        d !! key = Some v -> get (VDict d) key = Ok v).
Proof.
  split; [vm_compute; reflexivity|]. split; [|split].
  - intros body d Hbody Hloads.
    rewrite parse_response_text, re_sub_fence_fenced by done.
    unfold decode_and_print. rewrite Hloads, extract_dict. reflexivity.
  - intros d key Hnone. by rewrite get_dict, Hnone.
  - intros d key v Hsome. by rewrite get_dict, Hsome.
Qed.

Lemma parse_response_fenced_object_witness :
  parse_response
    (response_of_text (fence_open ++ lit "{\qcorrect\q: true}" ++ fence_close))
  = ([PrintJson (VDict {[ lit "correct" := VBool true ]});
      PrintOriginalLabel VNone; PrintCorrect (VBool true);
      PrintReasoning VNone; PrintCorrectLabel VNone], None)
  /\ get (VDict {[ lit "correct" := VBool true ]}) (lit "reasoning") = Ok VNone
  /\ get (VDict {[ lit "correct" := VBool true ]}) (lit "correct") = Ok (VBool true).
Proof.
  destruct parse_response_fenced_object as (_ & Hfenced & Hmissing & Hpresent).
  split; [|split].
  - rewrite (Hfenced (lit "{\qcorrect\q: true}") {[ lit "correct" := VBool true ]})
      by (vm_compute; reflexivity).
    vm_compute. reflexivity.
  - apply Hmissing. vm_compute. reflexivity.
  - apply Hpresent. vm_compute. reflexivity.
Defined.

(** C6, as the cell has it: when the decoder raises a decode error
    for the text that is left after the fences are removed and the
    white space is trimmed, the cell reports that it failed to decode,
    shows that stripped and trimmed text, and ends without an
    exception; the text shown is the text of the response itself when
    that has no fence and no white space around it. When the decoder
    ends with another exception, the cell prints nothing and ends
    with that exception. *)
Theorem decode_failure_reported
    (response : GenerateContentResponse) (cs : list Candidate) (raw_text : list N) :
  candidates response = Some cs ->
  first_text cs = Ok (Some raw_text) ->
  (forall msg doc pos,
      json_loads (strip (re_sub_fence raw_text)) = Raise (JSONDecodeError msg doc pos) ->
      parse_response response
      = ([PrintFailedToDecode (strip (re_sub_fence raw_text))], None)
      /\ (unmatched raw_text [] = true -> strip raw_text = raw_text ->
          parse_response response = ([PrintFailedToDecode raw_text], None)))
  /\ (forall e,
        json_loads (strip (re_sub_fence raw_text)) = Raise e ->
        e = RecursionError \/ e = ValueError ->
        parse_response response = ([], Some e))
  /\ ((forall doc, json_loads (strip (re_sub_fence raw_text)) <> Ok doc) ->
      parse_response response
      = ([PrintFailedToDecode (strip (re_sub_fence raw_text))], None)
      \/ parse_response response = ([], Some RecursionError)
      \/ parse_response response = ([], Some ValueError)).
Proof.
  intros Hcs Htext.
  assert (parse_response response
          = decode_and_print (strip (re_sub_fence raw_text))) as Hrun.
  { unfold parse_response. rewrite Hcs.
    destruct cs as [|c cs']; [discriminate Htext|]. by rewrite Htext. }
  rewrite Hrun. unfold decode_and_print. split; [|split].
  - intros msg doc pos Herr. rewrite Herr. split; [done|].
    intros Hplain Hstrip.
    pose proof (re_sub_fence_unmatched raw_text [] Hplain) as Hsub.
    rewrite app_nil_r in Hsub. cbn in Hsub. rewrite app_nil_r in Hsub.
    by rewrite Hsub, Hstrip.
  - intros e Herr [-> | ->]; by rewrite Herr.
  - intros Hbad.
    destruct (json_loads_outcomes (strip (re_sub_fence raw_text)))
      as [[doc Hdoc] | [(msg & pos & Herr) | [Herr | Herr]]].
    + by destruct (Hbad doc).
    + left. by rewrite Herr.
    + right. left. by rewrite Herr.
    + right. right. by rewrite Herr.
Qed.

Lemma decode_failure_reported_witness :
  parse_response (response_of_text (lit "oops"))
  = ([PrintFailedToDecode (lit "oops")], None)
  /\ parse_response (response_of_text deep_brackets) = ([], Some RecursionError).
Proof.
  split.
  - refine (proj2 (proj1 (decode_failure_reported (response_of_text (lit "oops"))
                            _ (lit "oops") eq_refl eq_refl)
                     msg_value (lit "oops") 0%nat _) _ _);
      vm_compute; reflexivity.
  - refine (proj1 (proj2 (decode_failure_reported (response_of_text deep_brackets)
                            _ deep_brackets eq_refl eq_refl))
              RecursionError _ _).
    + vm_compute. reflexivity.
    + by left.
Defined.

(** C6, as stated, fails: for a fenced answer that is not JSON the
    cell shows the text without its fences, which is not the text of
    the response; and for a text of 1100 opening brackets, which is
    not JSON either, it shows nothing and ends with a
    [RecursionError]. *)
Lemma decode_failure_shows_stripped_text :
  (forall doc, json_loads (strip (re_sub_fence fenced_garbage)) <> Ok doc)
  /\ parse_response (response_of_text fenced_garbage)
     = ([PrintFailedToDecode (lit "oops")], None)
  /\ parse_response (response_of_text fenced_garbage)
     <> ([PrintFailedToDecode fenced_garbage], None)
  /\ (forall doc, json_loads (strip (re_sub_fence deep_brackets)) <> Ok doc)
  /\ parse_response (response_of_text deep_brackets) = ([], Some RecursionError).
Proof.
  split; [|split; [|split; [|split]]].
  - intros doc. vm_compute. discriminate.
  - vm_compute. reflexivity.
  - vm_compute. discriminate.
  - intros doc. vm_compute. discriminate.
  - vm_compute. reflexivity.
Qed.



(** ** The crop *)

Lemma adjust_range (len i : Z) : (0 <= len -> 0 <= adjust len i <= len)%Z.
Proof. unfold adjust. intros Hlen. destruct (i <? 0)%Z eqn:Hi; lia. Qed.

(** A bound inside the sequence is left as it is. *)
Lemma adjust_inside (len i : Z) : (0 <= i <= len -> adjust len i = i)%Z.
Proof. unfold adjust. intros Hi. destruct (i <? 0)%Z eqn:Hneg; lia. Qed.

(** A slice is a run of consecutive items of the sequence. *)
Lemma slice_segment {A} (l : list A) (start stop : Z) :
  segment_of (slice l start stop) l.
Proof.
  unfold slice, segment_of.
  set (a := Z.to_nat (adjust (Z.of_nat (length l)) start)).
  set (k := Z.to_nat (adjust (Z.of_nat (length l)) stop
                      - adjust (Z.of_nat (length l)) start)).
  exists (take a l), (drop k (drop a l)).
  by rewrite (take_drop k (drop a l)), (take_drop a l).
Qed.

Lemma slice_length {A} (l : list A) (start stop : Z) :
  length (slice l start stop)
  = Z.to_nat (adjust (Z.of_nat (length l)) stop
              - adjust (Z.of_nat (length l)) start).
Proof.
  unfold slice. rewrite length_take, length_drop.
  pose proof (adjust_range (Z.of_nat (length l)) start ltac:(lia)).
  pose proof (adjust_range (Z.of_nat (length l)) stop ltac:(lia)).
  lia.
Qed.

Lemma slice_length_le {A} (l : list A) (start stop : Z) :
  (length (slice l start stop) <= length l)%nat.
Proof.
  rewrite slice_length.
  pose proof (adjust_range (Z.of_nat (length l)) start ltac:(lia)).
  pose proof (adjust_range (Z.of_nat (length l)) stop ltac:(lia)).
  lia.
Qed.

(** A slice whose end does not lie behind its start is empty. *)
Lemma slice_empty {A} (l : list A) (start stop : Z) :
  (adjust (Z.of_nat (length l)) stop <= adjust (Z.of_nat (length l)) start)%Z ->
  slice l start stop = [].
Proof.
  intros H. apply length_zero_iff_nil. rewrite slice_length. lia.
Qed.

Lemma crop_annotation_int (image_rgb : list (list pixel)) (a : annotation) (x y w h : Z) :
  bbox a = [PyInt x; PyInt y; PyInt w; PyInt h] ->
  crop_annotation image_rgb a
  = Ok ((fun row => slice row x (x + w)) <$> slice image_rgb y (y + h)).
Proof. unfold crop_annotation. intros ->. reflexivity. Qed.

(** C9, as the loop has it: for an annotation whose box has integer
    coordinates the slice of the picture always has a value, whatever
    the coordinates are. Its rows are cut from consecutive rows of the
    picture, each of them a run of consecutive pixels of its row, so
    that a box that reaches outside is clipped; a box whose adjusted
    end does not lie behind its start gives no rows, or rows without
    pixels; a box inside the picture gives [h] rows. *)
Theorem crop_total_on_int_boxes
    (image_rgb : list (list pixel)) (a : annotation) (x y w h : Z) :
  bbox a = [PyInt x; PyInt y; PyInt w; PyInt h] ->
  exists cropped,
    crop_annotation image_rgb a = Ok cropped
    /\ (exists rows, segment_of rows image_rgb /\ Forall2 segment_of cropped rows)
    /\ (length cropped <= length image_rgb)%nat
    /\ ((adjust (Z.of_nat (length image_rgb)) (y + h)
         <= adjust (Z.of_nat (length image_rgb)) y)%Z -> cropped = [])
    /\ ((w <= 0 /\ 0 <= x + w)%Z -> Forall (fun row => row = []) cropped)
    /\ ((0 <= y /\ 0 <= h /\ y + h <= Z.of_nat (length image_rgb))%Z ->
        length cropped = Z.to_nat h).
Proof.
  intros Hbox. eexists. split; [by apply crop_annotation_int|].
  split; [|split; [|split; [|split]]].
  - exists (slice image_rgb y (y + h)). split; [apply slice_segment|].
    apply Forall2_fmap_l, Forall_Forall2_diag, Forall_forall.
    intros row _. apply slice_segment.
  - rewrite length_fmap. apply slice_length_le.
  - intros Hinv. by rewrite slice_empty.
  - intros [Hw Hxw]. apply Forall_fmap, Forall_forall. intros row _. cbn.
    apply slice_empty. unfold adjust.
    destruct (x + w <? 0)%Z eqn:H1; destruct (x <? 0)%Z eqn:H2; lia.
  - intros (Hy & Hh & Hin). rewrite length_fmap, slice_length.
    rewrite !adjust_inside by lia. f_equal. lia.
Qed.

Lemma crop_total_on_int_boxes_witness :
  exists cropped,
    crop_annotation sample_image int_annotation = Ok cropped
    /\ (length cropped <= 3)%nat.
Proof.
  destruct (crop_total_on_int_boxes sample_image int_annotation 1 1 2 5 eq_refl)
    as (cropped & Hrun & _ & Hlen & _).
  exists cropped. split; [exact Hrun | exact Hlen].
Defined.

(** A float among the coordinates of a box ends the crop with an
    exception. *)
Lemma crop_annotation_float (image_rgb : list (list pixel)) (a : annotation)
    (x y w h : pynum) (f : spec_float) :
  bbox a = [x; y; w; h] ->
  PyFloat f ∈ [x; y; w; h] ->
  exists e, crop_annotation image_rgb a = Raise e.
Proof.
  intros Hbox Hin. unfold crop_annotation. rewrite Hbox. clear Hbox.
  destruct x as [x|fx], y as [y|fy], w as [w|fw], h as [h|fh];
    [exfalso;
     repeat (apply elem_of_cons in Hin as [Hin|Hin]; [discriminate|]);
     by apply elem_of_nil in Hin
    | clear Hin ..];
    unfold convert_bbox_coco_to_xyxy, crop, py_add; cbn;
    repeat match goal with
           | |- context [float_of_int ?z] => destruct (float_of_int z); cbn
           end;
    by eexists.
Qed.

(** C9, as stated, fails: a box with float coordinates converts to
    float corners, and a slice does not take them. *)
Lemma crop_raises_on_float_box :
  convert_bbox_coco_to_xyxy (bbox float_annotation)
  = Ok [PyFloat (dyadic 1 (-1)); PyFloat (dyadic 1 0);
        PyFloat (dyadic 5 (-1)); PyFloat (dyadic 2 0)]
  /\ crop_annotation sample_image float_annotation = Raise TypeError.
Proof. split; vm_compute; reflexivity. Qed.

(** ** [read_csv] on a file of plain lines *)

Lemma universal_newlines_no_cr (s : list N) :
  forallb (fun c => negb (c =? CR)) s = true -> universal_newlines s = s.
Proof.
  induction s as [|c s IH]; [done|]. cbn [forallb universal_newlines].
  intros [Hc Hs]%andb_prop. apply negb_true_iff in Hc. rewrite Hc.
  f_equal. by apply IH.
Qed.

Lemma plain_char_spec (c : N) :
  plain_char c = true ->
  (c =? COMMA) = false /\ (c =? DQUOTE) = false
  /\ (c =? LF) = false /\ (c =? CR) = false.
Proof.
  unfold plain_char. rewrite negb_true_iff, !orb_false_iff. tauto.
Qed.

Lemma plain_line_chars (l : list N) :
  plain_line l = true -> forallb plain_char l = true.
Proof. unfold plain_line. by intros [H _]%andb_prop. Qed.

Lemma text_of_lines_cons (l : list N) (lines : list (list N)) :
  text_of_lines (l :: lines) = l ++ LF :: text_of_lines lines.
Proof. unfold text_of_lines. cbn. by rewrite <- app_assoc. Qed.

Lemma line_chars_spec (l : list N) (c : N) :
  line_chars l = true -> In c l -> (c =? LF) = false /\ (c =? CR) = false.
Proof.
  unfold line_chars. rewrite forallb_forall. intros Hl Hc.
  apply Hl in Hc. apply negb_true_iff in Hc. unfold is_newline in Hc.
  by apply orb_false_iff in Hc.
Qed.

Lemma plain_line_line_chars (l : list N) : plain_line l = true -> line_chars l = true.
Proof.
  intros Hl%plain_line_chars. apply forallb_forall. intros c Hc.
  rewrite forallb_forall in Hl. apply Hl, plain_char_spec in Hc.
  destruct Hc as (_ & _ & Hlf & Hcr). unfold is_newline. by rewrite Hlf, Hcr.
Qed.

Lemma text_of_lines_no_cr (lines : list (list N)) :
  forallb line_chars lines = true ->
  forallb (fun c => negb (c =? CR)) (text_of_lines lines) = true.
Proof.
  induction lines as [|l lines IH]; [done|]. cbn [forallb].
  intros [Hl Hls]%andb_prop. rewrite text_of_lines_cons, forallb_app.
  cbn [forallb]. rewrite (IH Hls). cbn. rewrite andb_true_r.
  apply forallb_forall. intros c Hc.
  by destruct (line_chars_spec l c Hl Hc) as [_ ->].
Qed.

Lemma lines_from_line (cur l rest : list N) :
  line_chars l = true ->
  lines_from cur (l ++ LF :: rest) = (rev cur ++ l ++ [LF]) :: lines_from [] rest.
Proof.
  revert cur. induction l as [|c l IH]; intros cur Hl.
  - reflexivity.
  - destruct (line_chars_spec (c :: l) c Hl (or_introl eq_refl)) as [Hlf _].
    unfold line_chars in Hl. cbn [forallb] in Hl.
    apply andb_prop in Hl as [_ Hl].
    cbn [app lines_from]. rewrite Hlf, IH by done. cbn.
    by rewrite <- !app_assoc.
Qed.

Lemma readlines_text_of_lines (lines : list (list N)) :
  forallb line_chars lines = true ->
  readlines (text_of_lines lines) = (fun l => l ++ [LF]) <$> lines.
Proof.
  unfold readlines. induction lines as [|l lines IH]; [done|].
  cbn [forallb]. intros [Hl Hls]%andb_prop.
  rewrite text_of_lines_cons, lines_from_line by done.
  cbn. f_equal. by apply IH.
Qed.

Lemma plain_lines_line_chars (lines : list (list N)) :
  forallb plain_line lines = true -> forallb line_chars lines = true.
Proof.
  rewrite !forallb_forall. intros H l Hl. by apply plain_line_line_chars, H.
Qed.

Lemma parse_line_in_field (l acc : list N) (done_ : list (list N)) :
  forallb plain_char l = true ->
  N.of_nat (length acc + length l) <= field_limit ->
  parse_line {| state := IN_FIELD; field := acc; fields := done_ |} (l ++ [LF])
  = Ok {| state := START_RECORD; field := [];
          fields := rev (rev l ++ acc) :: done_ |}.
Proof.
  revert acc. induction l as [|c l IH]; intros acc Hl Hlen.
  - reflexivity.
  - cbn [forallb] in Hl. apply andb_prop in Hl as [Hc Hl].
    apply plain_char_spec in Hc as (Hcomma & _ & Hlf & Hcr).
    cbn [app parse_line parse_process_char state].
    unfold is_newline. rewrite Hlf, Hcr, Hcomma. cbn [orb].
    unfold parse_add_char. cbn [field state fields].
    assert ((field_limit <=? N.of_nat (length acc)) = false) as ->.
    { apply N.leb_gt. cbn [length] in Hlen. lia. }
    cbn. rewrite IH; [|done|cbn [length] in *; lia].
    cbn [rev]. by rewrite <- app_assoc.
Qed.

(** The row the reader makes of one plain line. *)
Lemma parse_line_plain (l : list N) :
  plain_line l = true ->
  exists r, parse_line parse_reset (l ++ [LF]) = Ok r
            /\ state r = START_RECORD
            /\ rev (fields r) = match l with [] => [] | _ => [l] end.
Proof.
  unfold plain_line. intros [Hl Hlen%N.leb_le]%andb_prop.
  destruct l as [|c l].
  - eexists. split; [reflexivity|]. by split.
  - cbn [forallb] in Hl. apply andb_prop in Hl as [Hc Hl].
    apply plain_char_spec in Hc as (Hcomma & Hq & Hlf & Hcr).
    cbn [app parse_line parse_process_char parse_reset state].
    unfold is_newline. rewrite Hlf, Hcr, Hq, Hcomma. cbn [orb].
    change (exists r,
               parse_line {| state := IN_FIELD; field := [c]; fields := [] |}
                 (l ++ [LF]) = Ok r
               /\ state r = START_RECORD /\ rev (fields r) = [c :: l]).
    rewrite parse_line_in_field; [|done|cbn [length] in *; lia].
    eexists. split; [reflexivity|]. split; [done|].
    cbn. by rewrite rev_app_distr, rev_involutive.
Qed.

Lemma rows_from_plain (lines : list (list N)) :
  forallb plain_line lines = true ->
  rows_from parse_reset ((fun l => l ++ [LF]) <$> lines)
  = Ok ((fun l => match l with [] => [] | _ => [l] end) <$> lines).
Proof.
  induction lines as [|l lines IH]; [done|]. cbn [forallb].
  intros [Hl Hls]%andb_prop. cbn [fmap list_fmap rows_from].
  destruct (parse_line_plain l Hl) as (r & -> & Hst & Hrow).
  cbn. rewrite Hst. rewrite (IH Hls). cbn. by rewrite Hrow.
Qed.

Lemma heads_of_plain_rows (lines : list (list N)) :
  omap head ((fun l => match l with [] => [] | _ => [l] end) <$> lines)
  = filter (fun l => l <> []) lines.
Proof.
  induction lines as [|[|c l] lines IH]; [done|..].
  - rewrite filter_cons_False by naive_solver. exact IH.
  - rewrite filter_cons_True by done. cbn. by rewrite IH.
Qed.

(** The rows the reader makes of a file of plain lines. *)
Lemma csv_reader_plain_lines (lines : list (list N)) :
  forallb plain_line lines = true ->
  csv_reader (readlines (universal_newlines (text_of_lines lines)))
  = Ok ((fun l => match l with [] => [] | _ => [l] end) <$> lines).
Proof.
  intros Hplain.
  pose proof (plain_lines_line_chars lines Hplain) as Hlines.
  rewrite universal_newlines_no_cr by by apply text_of_lines_no_cr.
  rewrite readlines_text_of_lines by done.
  by apply rows_from_plain.
Qed.

(** X1: for a file of lines without comma, quote or carriage return,
    each ended by a line feed, [read_csv] returns the lines that are
    not empty, in the order of the file and the first line among
    them. *)
Theorem read_csv_plain_lines
    (fs : gmap (list N) (list N)) (file_path : list N) (lines : list (list N)) :
  forallb plain_line lines = true ->
  fs !! file_path = Some (text_of_lines lines) ->
  read_csv fs file_path = Ok (filter (fun l => l <> []) lines).
Proof.
  intros Hplain Hfile.
  rewrite (read_csv_heads fs file_path (text_of_lines lines)
             ((fun l => match l with [] => [] | _ => [l] end) <$> lines));
    [by rewrite heads_of_plain_rows | done |].
  by apply csv_reader_plain_lines.
Qed.

Lemma read_csv_plain_lines_witness :
  read_csv {[ lit "l.csv" := text_of_lines [lit "label"; []; lit "glass"] ]}
    (lit "l.csv")
  = Ok (filter (fun l => l <> []) [lit "label"; []; lit "glass"]).
Proof.
  apply read_csv_plain_lines; vm_compute; reflexivity.
Defined.

(** X2: the labels read from a file of plain lines are numbered in the
    order of the file: the line at position [i] among the lines that
    are not empty is the label of category [i + 1], so that a header
    line is the label of category 1. *)
Theorem labels_of_plain_file
    (fs : gmap (list N) (list N)) (file_path : list N) (lines : list (list N))
    (i : nat) (label : list N) :
  forallb plain_line lines = true ->
  fs !! file_path = Some (text_of_lines lines) ->
  filter (fun l => l <> []) lines !! i = Some label ->
  exists labels,
    read_csv fs file_path = Ok labels
    /\ subscript (labels_mapping labels) (Z.of_nat i + 1) = Ok label.
Proof.
  intros Hplain Hfile Hi. exists (filter (fun l => l <> []) lines). split.
  { rewrite <- heads_of_plain_rows.
    apply (read_csv_heads fs file_path (text_of_lines lines) _ Hfile).
    by apply csv_reader_plain_lines. }
  unfold subscript. rewrite labels_mapping_lookup.
  apply lookup_lt_Some in Hi as Hlt.
  case_decide; [|lia].
  replace (Z.to_nat (Z.of_nat i + 1 - 1)) with i by lia.
  by rewrite Hi.
Qed.

Lemma labels_of_plain_file_witness :
  exists labels,
    read_csv {[ lit "l.csv" := text_of_lines [lit "label"; lit "glass"] ]}
      (lit "l.csv") = Ok labels
    /\ subscript (labels_mapping labels) (Z.of_nat 0 + 1) = Ok (lit "label").
Proof.
  apply (labels_of_plain_file _ _ [lit "label"; lit "glass"]);
    vm_compute; reflexivity.
Defined.

Lemma dict_of_items_size {A} (l : list A) (start : Z) (m : gmap Z A) :
  (forall k, (start <= k)%Z -> m !! k = None) ->
  size (fold_left (fun m '(i, j) => <[i := j]> m) (enumerate l start) m)
  = (size m + length l)%nat.
Proof.
  revert start m. induction l as [|a l IH]; intros start m Hfree;
    cbn [enumerate fold_left length].
  - lia.
  - rewrite IH.
    + rewrite map_size_insert_None by (apply Hfree; lia). lia.
    + intros k Hk. rewrite lookup_insert_ne by lia. apply Hfree. lia.
Qed.

(** X3: the mapping has one entry for every label of the list, also
    when a label occurs twice, and [id] maps to [label] exactly when
    [id >= 1] and [label] stands at position [id - 1] of the list. *)
Theorem labels_mapping_entries (labels : list (list N)) :
  size (labels_mapping labels) = length labels
  /\ forall (id : Z) (label : list N),
       labels_mapping labels !! id = Some label
       <-> (1 <= id)%Z /\ labels !! Z.to_nat (id - 1) = Some label.
Proof.
  split.
  - unfold labels_mapping, dict_of_items.
    rewrite dict_of_items_size by (intros; apply lookup_empty).
    by rewrite map_size_empty.
  - intros id label. rewrite labels_mapping_lookup. case_decide.
    + split; [intros H'; split; [lia | done] | by intros [_ H']].
    + split; [done|]. intros [Hid Hl]. apply lookup_lt_Some in Hl. lia.
Qed.

(** X4: [convert_bbox_coco_to_xyxy] returns only for a box of at least
    four elements; it then returns exactly four, the first two of the
    box unchanged, and does not look at what follows the fourth. A
    box of at most two elements raises [IndexError]. *)
Theorem convert_bbox_shape (bbox : list pynum) :
  (forall corners, convert_bbox_coco_to_xyxy bbox = Ok corners ->
     exists x y w h rest x2 y2,
       bbox = x :: y :: w :: h :: rest
       /\ corners = [x; y; x2; y2]
       /\ py_add x w = Ok x2 /\ py_add y h = Ok y2)
  /\ convert_bbox_coco_to_xyxy bbox = convert_bbox_coco_to_xyxy (take 4 bbox)
  /\ ((length bbox <= 2)%nat -> convert_bbox_coco_to_xyxy bbox = Raise IndexError).
Proof.
  unfold convert_bbox_coco_to_xyxy.
  destruct bbox as [|x [|y [|w [|h rest]]]]; cbn.
  - split; [discriminate | split; done].
  - split; [discriminate | split; done].
  - split; [discriminate | split; done].
  - split; [|split; [done | lia]].
    intros corners. destruct (py_add x w); discriminate.
  - split; [|split; [done | lia]].
    intros corners.
    destruct (py_add x w) as [x2|] eqn:Hx; [|discriminate]. cbn.
    destruct (py_add y h) as [y2|] eqn:Hy; [|discriminate]. cbn.
    intros [= <-]. by exists x, y, w, h, rest, x2, y2.
Qed.

Lemma convert_bbox_shape_witness :
  (exists x y w h rest x2 y2,
      [PyInt 1; PyInt 2; PyInt 3; PyInt 4; PyInt 9] = x :: y :: w :: h :: rest
      /\ [PyInt 1; PyInt 2; PyInt 4; PyInt 6] = [x; y; x2; y2]
      /\ py_add x w = Ok x2 /\ py_add y h = Ok y2)
  /\ convert_bbox_coco_to_xyxy [PyInt 1; PyInt 2] = Raise IndexError.
Proof.
  split.
  - apply (proj1 (convert_bbox_shape
                    [PyInt 1; PyInt 2; PyInt 3; PyInt 4; PyInt 9])).
    reflexivity.
  - apply (proj2 (proj2 (convert_bbox_shape [PyInt 1; PyInt 2]))). cbn. lia.
Defined.

(** ** The crop of a box with integer coordinates *)

(** With a start that is not negative and an end behind it, a slice is
    what is left of the sequence after skipping [start] items, cut to
    [stop - start] items. *)
Lemma slice_nonneg {A} (l : list A) (start stop : Z) :
  (0 <= start <= stop)%Z ->
  slice l start stop = take (Z.to_nat (stop - start)) (drop (Z.to_nat start) l).
Proof.
  intros Hs. unfold slice, adjust.
  assert ((start <? 0)%Z = false) as -> by lia.
  assert ((stop <? 0)%Z = false) as -> by lia.
  destruct (decide (start <= Z.of_nat (length l))%Z) as [Hin|Hout].
  - rewrite (Z.min_l start) by lia.
    destruct (decide (stop <= Z.of_nat (length l))%Z) as [Hin'|Hout'].
    + by rewrite (Z.min_l stop) by lia.
    + rewrite (Z.min_r stop) by lia.
      rewrite !take_ge; [done | rewrite length_drop; lia..].
  - rewrite (Z.min_r start), (Z.min_r stop) by lia.
    rewrite !drop_ge by lia. by rewrite !take_nil.
Qed.

Lemma crop_annotation_nonneg
    (image_rgb : list (list pixel)) (a : annotation) (x y w h : nat) :
  bbox a = [PyInt (Z.of_nat x); PyInt (Z.of_nat y);
            PyInt (Z.of_nat w); PyInt (Z.of_nat h)] ->
  crop_annotation image_rgb a
  = Ok ((fun row => take w (drop x row)) <$> take h (drop y image_rgb)).
Proof.
  intros Hbox. rewrite (crop_annotation_int image_rgb a _ _ _ _ Hbox). f_equal.
  rewrite slice_nonneg by lia.
  replace (Z.to_nat (Z.of_nat y + Z.of_nat h - Z.of_nat y)) with h by lia.
  rewrite Nat2Z.id. apply list_fmap_ext. intros _ row _.
  rewrite slice_nonneg by lia.
  replace (Z.to_nat (Z.of_nat x + Z.of_nat w - Z.of_nat x)) with w by lia.
  by rewrite Nat2Z.id.
Qed.

(** X5: for a box whose integer coordinates and sizes are not
    negative, the crop consists of the rows [y] to [y + h - 1] and of
    their columns [x] to [x + w - 1], as far as the picture has them:
    the pixel at row [i] and column [j] of the crop is the pixel at
    row [y + i] and column [x + j] of the picture. *)
Theorem crop_of_nonneg_box
    (image_rgb : list (list pixel)) (a : annotation) (x y w h : nat) :
  bbox a = [PyInt (Z.of_nat x); PyInt (Z.of_nat y);
            PyInt (Z.of_nat w); PyInt (Z.of_nat h)] ->
  exists cropped,
    crop_annotation image_rgb a = Ok cropped
    /\ cropped = (fun row => take w (drop x row)) <$> take h (drop y image_rgb)
    /\ forall i j, (i < h)%nat -> (j < w)%nat ->
         cropped !! i ≫= (fun row => row !! j)
         = image_rgb !! (y + i)%nat ≫= (fun row => row !! (x + j)%nat).
Proof.
  intros Hbox. eexists. split; [by apply crop_annotation_nonneg|].
  split; [done|].
  intros i j Hi Hj.
  rewrite list_lookup_fmap, lookup_take_lt, lookup_drop by done.
  destruct (image_rgb !! (y + i)%nat) as [row|]; [|done]. cbn.
  by rewrite lookup_take_lt, lookup_drop by done.
Qed.

Lemma crop_of_nonneg_box_witness :
  exists cropped,
    crop_annotation sample_image
      {| category_id := 1;
         bbox := [PyInt (Z.of_nat 1); PyInt (Z.of_nat 1);
                  PyInt (Z.of_nat 2); PyInt (Z.of_nat 5)] |} = Ok cropped
    /\ cropped = [[px 11; px 12]; [px 21; px 22]].
Proof.
  destruct (crop_of_nonneg_box sample_image
              {| category_id := 1;
                 bbox := [PyInt (Z.of_nat 1); PyInt (Z.of_nat 1);
                          PyInt (Z.of_nat 2); PyInt (Z.of_nat 5)] |}
              1 1 2 5 eq_refl) as (cropped & Hrun & Hrows & _).
  exists cropped. split; [exact Hrun | exact Hrows].
Defined.

(** X6: for such a box the crop has [h] rows, or as many as the
    picture has from row [y] on, and each of its rows has [w] pixels,
    or as many as the row of the picture has from column [x] on: a
    box inside the picture is cropped in full size, and one that
    reaches beyond the right or the lower edge is cut at the edge. *)
Theorem crop_size_of_nonneg_box
    (image_rgb : list (list pixel)) (a : annotation) (x y w h : nat) :
  bbox a = [PyInt (Z.of_nat x); PyInt (Z.of_nat y);
            PyInt (Z.of_nat w); PyInt (Z.of_nat h)] ->
  exists cropped,
    crop_annotation image_rgb a = Ok cropped
    /\ length cropped = (h `min` (length image_rgb - y))%nat
    /\ Forall2 (fun row orig => length row = (w `min` (length orig - x))%nat)
         cropped (take h (drop y image_rgb)).
Proof.
  intros Hbox.
  eexists. split; [by apply crop_annotation_nonneg|]. split.
  - by rewrite length_fmap, length_take, length_drop.
  - apply Forall2_fmap_l, Forall_Forall2_diag, Forall_forall.
    intros row _. unfold compose. by rewrite length_take, length_drop.
Qed.

Lemma crop_size_of_nonneg_box_witness :
  exists cropped,
    crop_annotation sample_image
      {| category_id := 1;
         bbox := [PyInt (Z.of_nat 1); PyInt (Z.of_nat 1);
                  PyInt (Z.of_nat 2); PyInt (Z.of_nat 5)] |} = Ok cropped
    /\ length cropped = 2%nat.
Proof.
  destruct (crop_size_of_nonneg_box sample_image
              {| category_id := 1;
                 bbox := [PyInt (Z.of_nat 1); PyInt (Z.of_nat 1);
                          PyInt (Z.of_nat 2); PyInt (Z.of_nat 5)] |}
              1 1 2 5 eq_refl) as (cropped & Hrun & Hrows & _).
  exists cropped. split; [exact Hrun | exact Hrows].
Defined.

(** X7: a box that starts above or left of the picture is not cut to
    the part inside it. When the box starts at a negative row and
    ends at a row that is not negative, and is not higher than the
    picture, the crop has no rows; when it starts at a negative
    column, ends at one that is not negative, and is not wider than
    the rows, every row of the crop is empty. *)
Theorem crop_of_box_starting_outside
    (image_rgb : list (list pixel)) (a : annotation) (x y w h : Z) :
  bbox a = [PyInt x; PyInt y; PyInt w; PyInt h] ->
  exists cropped,
    crop_annotation image_rgb a = Ok cropped
    /\ ((y < 0 /\ 0 <= y + h /\ h <= Z.of_nat (length image_rgb))%Z ->
        cropped = [])
    /\ ((x < 0 /\ 0 <= x + w)%Z ->
        Forall (fun row => (w <= Z.of_nat (length row))%Z) image_rgb ->
        Forall (fun row => row = []) cropped).
Proof.
  intros Hbox. eexists. split; [by apply crop_annotation_int|]. split.
  - intros (Hy & Hyh & Hh). rewrite slice_empty; [done|].
    unfold adjust.
    assert ((y <? 0)%Z = true) as -> by lia.
    assert ((y + h <? 0)%Z = false) as -> by lia. lia.
  - intros (Hx & Hxw) Hrows. apply Forall_fmap.
    destruct (slice_segment image_rgb y (y + h)) as (before & after & Himg).
    rewrite Himg in Hrows.
    apply Forall_app in Hrows as [_ [Hrows _]%Forall_app].
    eapply Forall_impl; [exact Hrows|]. intros row Hrow. cbn beta in *.
    apply slice_empty. unfold adjust.
    assert ((x <? 0)%Z = true) as -> by lia.
    assert ((x + w <? 0)%Z = false) as -> by lia. lia.
Qed.

Lemma crop_of_box_starting_outside_witness :
  exists cropped,
    crop_annotation sample_image
      {| category_id := 1; bbox := [PyInt (-1); PyInt (-1); PyInt 3; PyInt 2] |}
    = Ok cropped
    /\ cropped = [].
Proof.
  destruct (crop_of_box_starting_outside sample_image
              {| category_id := 1;
                 bbox := [PyInt (-1); PyInt (-1); PyInt 3; PyInt 2] |}
              (-1) (-1) 3 2 eq_refl) as (cropped & Hrun & Hrows & _).
  exists cropped. split; [exact Hrun|]. apply Hrows. cbn. lia.
Defined.

(** ** Fence stripping, continued *)

Lemma sub_from_sublist (skip : nat) (s : list N) : sublist (sub_from skip s) s.
Proof.
  revert skip. induction s as [|c s IH]; intros skip; [constructor|].
  cbn [sub_from]. destruct skip as [|k].
  - destruct (fence_at (c :: s)) as [n|].
    + apply sublist_cons, IH.
    + apply sublist_skip, IH.
  - apply sublist_cons, IH.
Qed.

(** X8: the substitution only deletes: what is left of a text are
    characters of the text in their order, and so never more than the
    text had. *)
Theorem re_sub_fence_only_deletes (raw_text : list N) :
  sublist (re_sub_fence raw_text) raw_text
  /\ (length (re_sub_fence raw_text) <= length raw_text)%nat.
Proof.
  split; [apply sub_from_sublist|]. apply sublist_length, sub_from_sublist.
Qed.

Lemma fence_at_plain_start (c : N) (s : list N) :
  (c =? BACKTICK) = false ->
  match s with d :: _ => (d =? BACKTICK) = false | [] => True end ->
  fence_at (c :: s) = None.
Proof.
  intros Hc Hs. unfold fence_at, fence_open, fence_close.
  cbn [startswith]. change 96 with BACKTICK.
  rewrite (N.eqb_sym BACKTICK c), Hc. cbn [andb].
  destruct s as [|d s]; [by rewrite andb_false_r|].
  cbn [startswith]. rewrite (N.eqb_sym BACKTICK d), Hs.
  cbn [andb]. by rewrite andb_false_r.
Qed.

(** Text without a backtick, before a tail that does not start with
    one, holds no match of the pattern. *)
Lemma unmatched_no_backtick (a tail : list N) :
  no_backtick a = true ->
  match tail with d :: _ => (d =? BACKTICK) = false | [] => True end ->
  unmatched a tail = true.
Proof.
  unfold no_backtick. induction a as [|c a IH]; [done|].
  cbn [forallb unmatched]. intros [Hc Ha]%andb_prop Htail.
  apply negb_true_iff in Hc.
  change ((c :: a) ++ tail) with (c :: (a ++ tail)).
  rewrite fence_at_plain_start; [by apply IH | done |].
  destruct a as [|d a]; [exact Htail|].
  cbn [forallb] in Ha. apply andb_prop in Ha as [Hd _].
  by apply negb_true_iff in Hd.
Qed.

Lemma re_sub_fence_no_backtick (s : list N) :
  no_backtick s = true -> re_sub_fence s = s.
Proof.
  intros Hplain.
  pose proof (re_sub_fence_unmatched s []
                (unmatched_no_backtick s [] Hplain I)) as H.
  by rewrite !app_nil_r in H.
Qed.

(** X9: a response without any backtick passes the substitution
    unchanged, so that an answer without a fence is decoded as it is,
    trimmed of the white space around it. *)
Theorem unfenced_response_unchanged (raw_text : list N) :
  no_backtick raw_text = true ->
  re_sub_fence raw_text = raw_text
  /\ parse_response (response_of_text raw_text)
     = decode_and_print (strip raw_text).
Proof.
  intros Hplain. pose proof (re_sub_fence_no_backtick raw_text Hplain) as Hsub.
  split; [exact Hsub|]. by rewrite parse_response_text, Hsub.
Qed.

Lemma unfenced_response_unchanged_witness :
  re_sub_fence (lit "{\qcorrect\q: true}") = lit "{\qcorrect\q: true}"
  /\ parse_response (response_of_text (lit "{\qcorrect\q: true}"))
     = decode_and_print (strip (lit "{\qcorrect\q: true}")).
Proof.
  apply unfenced_response_unchanged. vm_compute. reflexivity.
Defined.

(** X13: when the text of the response decodes to a document that is
    not an object (a list, a string, a number, [true], [false] or
    [null]), the cell prints the document and then ends with an
    [AttributeError] that it does not catch. *)
Theorem non_object_response_raises (raw_text : list N) (response_json : value) :
  json_loads (strip (re_sub_fence raw_text)) = Ok response_json ->
  is_dict response_json = false ->
  parse_response (response_of_text raw_text)
  = ([PrintJson response_json], Some AttributeError).
Proof.
  intros Hloads Hnot. rewrite parse_response_text.
  unfold decode_and_print. rewrite Hloads.
  by destruct response_json.
Qed.

Lemma non_object_response_raises_witness :
  parse_response (response_of_text (fence_open ++ lit "[1, 2]" ++ fence_close))
  = ([PrintJson (VList [VInt 1; VInt 2])], Some AttributeError).
Proof.
  apply non_object_response_raises; vm_compute; reflexivity.
Defined.

(** ** Trimming *)

Lemma lstrip_spaces (ws : list N) : forallb is_space ws = true -> lstrip ws = [].
Proof.
  induction ws as [|c ws IH]; [done|]. cbn [forallb lstrip].
  intros [-> Hws]%andb_prop. by apply IH.
Qed.

Lemma lstrip_spaces_app (ws s : list N) :
  forallb is_space ws = true -> lstrip (ws ++ s) = lstrip s.
Proof.
  induction ws as [|c ws IH]; [done|]. cbn [forallb app lstrip].
  intros [-> Hws]%andb_prop. by apply IH.
Qed.

Lemma lstrip_app_cases (s t : list N) :
  (forallb is_space s = true /\ lstrip (s ++ t) = lstrip t)
  \/ (lstrip s <> [] /\ lstrip (s ++ t) = lstrip s ++ t).
Proof.
  induction s as [|c s IH]; [by left|]. cbn [forallb app lstrip].
  destruct (is_space c) eqn:Hc; [|by right].
  destruct IH as [[Hs Ht]|[Hs Ht]]; [by left | by right].
Qed.

Lemma rstrip_spaces_app (s ws : list N) :
  forallb is_space ws = true -> rstrip (s ++ ws) = rstrip s.
Proof.
  intros Hws. unfold rstrip. rewrite rev_app_distr.
  rewrite lstrip_spaces_app; [done|].
  apply forallb_forall. intros c Hc%in_rev.
  by apply (proj1 (forallb_forall _ _) Hws).
Qed.

(** White space before or behind a text does not change what is left
    after trimming. *)
Lemma strip_spaces_l (ws s : list N) :
  forallb is_space ws = true -> strip (ws ++ s) = strip s.
Proof. intros Hws. unfold strip. by rewrite lstrip_spaces_app. Qed.

Lemma strip_spaces_r (s ws : list N) :
  forallb is_space ws = true -> strip (s ++ ws) = strip s.
Proof.
  intros Hws. unfold strip.
  destruct (lstrip_app_cases s ws) as [[Hs ->]|[_ ->]].
  - by rewrite (lstrip_spaces ws), (lstrip_spaces s).
  - by apply rstrip_spaces_app.
Qed.

Lemma lstrip_keeps_last (s : list N) (c : N) :
  is_space c = false -> exists s', lstrip (s ++ [c]) = s' ++ [c].
Proof.
  intros Hc. induction s as [|d s IH]; cbn [app lstrip].
  - rewrite Hc. by exists [].
  - destruct (is_space d); [exact IH|]. by exists (d :: s).
Qed.

(** Trimming keeps a first character that is not white space. *)
Lemma strip_keeps_first (c : N) (s : list N) :
  is_space c = false -> exists s', strip (c :: s) = c :: s'.
Proof.
  intros Hc. unfold strip. cbn [lstrip]. rewrite Hc.
  unfold rstrip. cbn [rev].
  destruct (lstrip_keeps_last (rev s) c Hc) as [s' ->].
  exists (rev s'). by rewrite rev_app_distr.
Qed.

Lemma is_space_not_backtick (c : N) :
  is_space c = true -> (c =? BACKTICK) = false.
Proof.
  intros Hc. destruct (c =? BACKTICK) eqn:Hb; [|done].
  apply N.eqb_eq in Hb. subst c. discriminate Hc.
Qed.

Lemma spaces_no_backtick (ws : list N) :
  forallb is_space ws = true -> no_backtick ws = true.
Proof.
  intros Hws. apply forallb_forall. intros c Hc.
  apply negb_true_iff, is_space_not_backtick.
  by apply (proj1 (forallb_forall _ _) Hws).
Qed.

(** ** Text that cannot be JSON *)

Lemma word_other_start (w0 : N) (w : list N) (v : value) (c : N) (s : list N) :
  (c =? w0) = false -> word (w0 :: w) v (c :: s) = None.
Proof.
  intros Hc. unfold word. cbn [startswith].
  by rewrite (N.eqb_sym w0 c), Hc.
Qed.

Lemma is_digit_false_not_zero (c : N) : is_digit c = false -> (c =? 48) = false.
Proof.
  unfold is_digit. intros H. destruct (c =? 48) eqn:Hz; [|done].
  apply N.eqb_eq in Hz. subst c. discriminate H.
Qed.

Lemma scan_atom_other_start (c : N) (s : list N) :
  json_start c = false -> scan_atom (c :: s) = None.
Proof.
  unfold json_start. rewrite !orb_false_iff.
  intros (((((((((((_ & _) & _) & _) & Hn) & Ht) & Hf) & Hm) & Hd) & HN) & HI) & _).
  unfold scan_atom.
  change (lit "null") with (ch "n" :: lit "ull").
  change (lit "true") with (ch "t" :: lit "rue").
  change (lit "false") with (ch "f" :: lit "alse").
  change (lit "NaN") with (ch "N" :: lit "aN").
  change (lit "Infinity") with (ch "I" :: lit "nfinity").
  change (lit "-Infinity") with (ch "-" :: lit "Infinity").
  rewrite !word_other_start by done.
  unfold scan_number, sign_part. rewrite Hm. unfold int_part.
  by rewrite (is_digit_false_not_zero c Hd), Hd.
Qed.

(** A text whose first character cannot start a JSON document is
    rejected by the decoder. *)
Lemma json_loads_other_start (c : N) (s : list N) :
  json_start c = false ->
  json_loads (c :: s) = Raise (JSONDecodeError msg_value (c :: s) 0).
Proof.
  intros Hc. pose proof (scan_atom_other_start c s Hc) as Hatom.
  unfold json_start in Hc. rewrite !orb_false_iff in Hc.
  destruct Hc as (((((((((((Hws & Hq) & Hobj) & Harr) & _) & _) & _) & _) & _) & _) & _) & Hbom).
  unfold json_loads. cbn [startswith].
  rewrite (N.eqb_sym 65279 c), Hbom. cbn [andb].
  cbn [skip_ws]. rewrite Hws.
  replace (2 * length (c :: s) + 1)%nat with (S (2 * length (c :: s))) by lia.
  cbn [scan_once]. rewrite Hq, Hobj, Harr, Hatom.
  unfold pos_of. by rewrite Nat.sub_diag.
Qed.

Lemma decode_fails_on_other_start (json_string : list N) (c : N) (s : list N) :
  json_string = c :: s ->
  json_start c = false ->
  decode_and_print json_string = ([PrintFailedToDecode json_string], None).
Proof.
  intros -> Hc. unfold decode_and_print.
  by rewrite json_loads_other_start.
Qed.

(** ** Answers whose fence is not the one the pattern knows *)

(** X11: an opening fence that the pattern does not match, because it
    has no tag, another tag, capitals or a carriage return before the
    line feed, stays in the text: the answer then begins with a
    backtick and is reported as not decodable, whatever its body is. *)
Theorem unrecognised_fence_fails (rest : list N) :
  unmatched (BACKTICK :: rest) fence_close = true ->
  parse_response (response_of_text ((BACKTICK :: rest) ++ fence_close))
  = ([PrintFailedToDecode (strip (BACKTICK :: rest))], None).
Proof.
  intros Hun. rewrite parse_response_text, re_sub_fence_unmatched by done.
  change (re_sub_fence fence_close) with (@nil N). rewrite app_nil_r.
  destruct (strip_keeps_first BACKTICK rest eq_refl) as [s' Hs].
  by apply (decode_fails_on_other_start _ BACKTICK s').
Qed.

Lemma unrecognised_fence_fails_witness :
  parse_response (response_of_text (lit "```\n{}\n```"))
  = ([PrintFailedToDecode (lit "```\n{}")], None).
Proof.
  exact (unrecognised_fence_fails (lit "``\n{}") eq_refl).
Defined.

(** X10: when the opening fence follows a line feed, the pattern
    matches that line feed with the three backticks as a closing
    fence. The tag [json] with its line feed is left in front of the
    body, and the answer is reported as not decodable. *)
Theorem fence_after_line_feed_fails (before body : list N) :
  forallb is_space before = true ->
  unmatched (lit "json\n" ++ body) fence_close = true ->
  parse_response
    (response_of_text (before ++ LF :: fence_open ++ body ++ fence_close))
  = ([PrintFailedToDecode (strip (lit "json\n" ++ body))], None).
Proof.
  intros Hws Hun. rewrite parse_response_text.
  change (LF :: fence_open ++ body ++ fence_close)
    with (fence_close ++ (lit "json\n" ++ body) ++ fence_close).
  rewrite re_sub_fence_unmatched
    by (apply unmatched_no_backtick; [by apply spaces_no_backtick | done]).
  rewrite re_sub_fence_close, re_sub_fence_unmatched by done.
  change (re_sub_fence fence_close) with (@nil N). rewrite app_nil_r.
  rewrite strip_spaces_l by done.
  destruct (strip_keeps_first (ch "j") (lit "son\n" ++ body) eq_refl) as [s' Hs].
  by apply (decode_fails_on_other_start _ (ch "j") s').
Qed.

Lemma fence_after_line_feed_fails_witness :
  parse_response (response_of_text (lit "\n```json\n{}\n```"))
  = ([PrintFailedToDecode (lit "json\n{}")], None).
Proof.
  exact (fence_after_line_feed_fails [] (lit "{}") eq_refl eq_refl).
Defined.

(** ** White space behind the closing fence *)

Lemma startswith_app (p u v : list N) :
  (length p <= length u)%nat -> startswith p (u ++ v) = startswith p u.
Proof.
  revert u. induction p as [|a p IH]; intros u Hlen; [done|].
  destruct u as [|b u]; [cbn in Hlen; lia|].
  cbn [app startswith]. rewrite IH; [done | cbn in Hlen; lia].
Qed.

Lemma fence_at_before_close (u ws : list N) :
  fence_at (u ++ fence_close ++ ws) = fence_at (u ++ fence_close).
Proof.
  unfold fence_at.
  assert (startswith fence_close (u ++ fence_close ++ ws)
          = startswith fence_close (u ++ fence_close)) as ->.
  { rewrite (app_assoc u). apply startswith_app.
    rewrite length_app. cbn. lia. }
  assert (startswith fence_open (u ++ fence_close ++ ws)
          = startswith fence_open (u ++ fence_close)) as ->; [|done].
  destruct (decide (4 <= length u)%nat) as [Hlong|Hshort].
  - rewrite (app_assoc u). apply startswith_app.
    rewrite length_app. cbn. lia.
  - destruct u as [|u1 [|u2 [|u3 [|u4 u]]]]; [..|cbn in Hshort; lia];
      unfold fence_open, fence_close; cbn [app startswith];
      rewrite ?andb_false_r; reflexivity.
Qed.

Lemma unmatched_before_close (body ws : list N) :
  unmatched body fence_close = true ->
  unmatched body (fence_close ++ ws) = true.
Proof.
  induction body as [|c body IH]; [done|]. cbn [unmatched].
  rewrite fence_at_before_close.
  destruct (fence_at ((c :: body) ++ fence_close)); [done | exact IH].
Qed.

(** X12: white space behind the closing fence, such as a final line
    feed, changes nothing: the response is parsed as it is without
    it. *)
Theorem space_after_fence_harmless (body ws : list N) :
  unmatched body fence_close = true ->
  forallb is_space ws = true ->
  parse_response (response_of_text (fence_open ++ body ++ fence_close ++ ws))
  = parse_response (response_of_text (fence_open ++ body ++ fence_close)).
Proof.
  intros Hun Hws. rewrite !parse_response_text.
  rewrite re_sub_fence_fenced by done.
  rewrite re_sub_fence_open.
  rewrite re_sub_fence_unmatched by by apply unmatched_before_close.
  rewrite re_sub_fence_close.
  rewrite (re_sub_fence_no_backtick ws (spaces_no_backtick ws Hws)).
  by rewrite strip_spaces_r.
Qed.

Lemma space_after_fence_harmless_witness :
  parse_response (response_of_text (fence_open ++ lit "{}" ++ fence_close ++ [LF]))
  = parse_response (response_of_text (fence_open ++ lit "{}" ++ fence_close)).
Proof.
  exact (space_after_fence_harmless (lit "{}") [LF] eq_refl eq_refl).
Defined.

(** ** The annotation loop *)

Section AnnotationLoopFacts.
Context {picture : Type}.
Variable thumbnail_of : list (list pixel) -> result picture.
Variable generate_content :
  nat -> picture -> list N -> result GenerateContentResponse.
Variable text_of : GenerateContentResponse -> result (option (list N)).
Variable prompt : list N.
Variable mapping : gmap Z (list N).
Variable image_rgb : list (list pixel).

Local Abbreviation body := (loop_body thumbnail_of generate_content text_of prompt mapping image_rgb).
Local Abbreviation loop := (annotation_loop thumbnail_of generate_content text_of prompt mapping image_rgb).
Local Abbreviation sent_for := (request_of thumbnail_of prompt mapping image_rgb).

(** A round that ends without an exception sent one request, the one
    for its annotation, and left the answer in [response]. *)
Lemma loop_body_completed (k k' : kernel) (a : annotation) :
  body k a = (k', None) ->
  exists req r,
    sent_for a = Ok req
    /\ generate_content (length (requests k)) req.1 req.2 = Ok r
    /\ requests k' = requests k ++ [req]
    /\ response_var k' = Some r.
Proof.
  unfold loop_body, request_of.
  destruct (annotate mapping image_rgb a) as [[annotated_label cropped]|e];
    [|discriminate]. cbn.
  destruct (thumbnail_of cropped) as [cropped_image|e]; [|discriminate]. cbn.
  destruct (generate_content _ _ _) as [r|e] eqn:Hr; [|discriminate].
  destruct (text_of r) as [response_text|e]; [|discriminate].
  intros [= <-]. by eexists _, r.
Qed.

(** A round for an annotation that has no request leaves the
    notebook as it was. *)
Lemma loop_body_no_request (k : kernel) (a : annotation) (e : exn) :
  sent_for a = Raise e -> body k a = (k, Some e).
Proof.
  unfold loop_body, request_of.
  destruct (annotate mapping image_rgb a) as [[annotated_label cropped]|e'];
    cbn; [|by intros [= ->]].
  destruct (thumbnail_of cropped) as [cropped_image|e']; cbn;
    [discriminate | by intros [= ->]].
Qed.

Lemma annotation_loop_app (before after : list annotation) (k : kernel) :
  loop (before ++ after) k
  = match loop before k with
    | (k1, None) => loop after k1
    | (k1, Some e) => (k1, Some e)
    end.
Proof.
  revert k. induction before as [|a before IH]; intros k; [done|].
  cbn [app annotation_loop].
  destruct (body k a) as [k' [e|]]; [done | apply IH].
Qed.

Lemma annotation_loop_requests (annotations : list annotation) (k k' : kernel) :
  loop annotations k = (k', None) ->
  exists sent,
    requests k' = requests k ++ sent
    /\ Forall2 (fun a req => sent_for a = Ok req) annotations sent.
Proof.
  revert k. induction annotations as [|a rest IH]; intros k; cbn [annotation_loop].
  - intros [= <-]. exists []. by rewrite app_nil_r.
  - destruct (body k a) as [k1 [e|]] eqn:Hbody; [discriminate|].
    intros Hrest.
    destruct (loop_body_completed k k1 a Hbody) as (req & r & Hreq & _ & Hsent & _).
    destruct (IH k1 Hrest) as (sent & Hsent' & Hall).
    exists (req :: sent). split; [|by constructor].
    rewrite Hsent', Hsent. by rewrite <- app_assoc.
Qed.

(** X14: when the loop ends without an exception it has sent one
    request for every annotation, in the order of the annotations;
    the request for an annotation holds the thumbnail of its crop
    and the prompt followed by [\nAnnotation Label: ] and the label
    of its category. *)
Theorem loop_sends_one_request_each (annotations : list annotation) (k k' : kernel) :
  loop annotations k = (k', None) ->
  exists sent,
    requests k' = requests k ++ sent
    /\ length sent = length annotations
    /\ Forall2
         (fun a req =>
            exists annotated_label cropped,
              subscript mapping (category_id a) = Ok annotated_label
              /\ crop_annotation image_rgb a = Ok cropped
              /\ thumbnail_of cropped = Ok req.1
              /\ req.2 = prompt ++ lit "\nAnnotation Label: " ++ annotated_label)
         annotations sent.
Proof.
  intros Hloop.
  destruct (annotation_loop_requests annotations k k' Hloop) as (sent & Hsent & Hall).
  exists sent. split; [done|]. split; [symmetry; by eapply Forall2_length|].
  eapply Forall2_impl; [exact Hall|]. intros a req. cbn beta.
  unfold request_of, annotate.
  destruct (subscript mapping (category_id a)) as [annotated_label|]; [|discriminate].
  cbn. destruct (crop_annotation image_rgb a) as [cropped|]; [|discriminate].
  cbn. destruct (thumbnail_of cropped) as [cropped_image|] eqn:Ht; [|discriminate].
  cbn. intros [= <-]. by exists annotated_label, cropped.
Qed.

(** X15: the loop ends at the first annotation that has no label,
    no crop or no thumbnail: what was sent for the annotations
    before it stays sent, nothing is sent for it, and the
    annotations behind it are not looked at. An unknown category
    ends the loop with its [KeyError]. *)
Theorem loop_stops_at_first_failure
    (before after : list annotation) (a : annotation) (k k1 : kernel) (e : exn) :
  loop before k = (k1, None) ->
  sent_for a = Raise e ->
  loop (before ++ a :: after) k = (k1, Some e)
  /\ (mapping !! category_id a = None -> e = KeyError (category_id a)).
Proof.
  intros Hbefore Hfail. split.
  - rewrite annotation_loop_app, Hbefore. cbn [annotation_loop].
    by rewrite (loop_body_no_request k1 a e).
  - intros Hnone. unfold request_of, annotate, subscript in Hfail.
    rewrite Hnone in Hfail. cbn in Hfail. congruence.
Qed.

Lemma annotation_loop_last (annotations : list annotation) (a : annotation)
    (k k' : kernel) :
  loop (annotations ++ [a]) k = (k', None) ->
  exists req r,
    last (requests k') = Some req
    /\ generate_content (length (requests k') - 1) req.1 req.2 = Ok r
    /\ response_var k' = Some r.
Proof.
  rewrite annotation_loop_app.
  destruct (loop annotations k) as [k1 [e|]]; [discriminate|].
  cbn [annotation_loop].
  destruct (body k1 a) as [k2 [e|]] eqn:Hbody; [discriminate|].
  intros [= <-].
  destruct (loop_body_completed k1 k2 a Hbody) as (req & r & _ & Hr & Hsent & Hvar).
  exists req, r. rewrite Hsent, last_snoc, length_app. cbn [length].
  replace (length (requests k1) + 1 - 1)%nat with (length (requests k1)) by lia.
  done.
Qed.

(** X16: however many annotations the loop went through, the cell
    behind it parses one response, the answer to the request that
    was sent last; the answers to the earlier requests are not
    parsed. *)
Theorem only_last_response_parsed
    (annotations : list annotation) (k k' : kernel) :
  annotations <> [] ->
  loop annotations k = (k', None) ->
  exists req r,
    last (requests k') = Some req
    /\ generate_content (length (requests k') - 1) req.1 req.2 = Ok r
    /\ run_parse_cell k' = Some (parse_response r).
Proof.
  intros Hne Hloop.
  destruct (exists_last Hne) as (front & a & ->).
  destruct (annotation_loop_last front a k k' Hloop) as (req & r & Hlast & Hr & Hvar).
  exists req, r. unfold run_parse_cell. by rewrite Hvar.
Qed.
End AnnotationLoopFacts.

Lemma loop_sends_one_request_each_witness :
  exists k' sent,
    annotation_loop sample_thumbnail echo_model sample_text_of (lit "p") sample_mapping
      sample_image sample_annotations fresh_kernel = (k', None)
    /\ requests k' = [] ++ sent
    /\ length sent = 2%nat.
Proof.
  eexists.
  destruct (loop_sends_one_request_each sample_thumbnail echo_model sample_text_of (lit "p")
              sample_mapping sample_image sample_annotations fresh_kernel _ eq_refl)
    as (sent & Hsent & Hlen & _).
  exists sent. split; [reflexivity|]. split; [exact Hsent | exact Hlen].
Defined.

Lemma loop_stops_at_first_failure_witness :
  annotation_loop sample_thumbnail echo_model sample_text_of (lit "p") sample_mapping
    sample_image
    (sample_annotations
       ++ {| category_id := 7; bbox := [] |} :: sample_annotations)
    fresh_kernel
  = ((annotation_loop sample_thumbnail echo_model sample_text_of (lit "p") sample_mapping
        sample_image sample_annotations fresh_kernel).1,
     Some (KeyError 7)).
Proof.
  apply (loop_stops_at_first_failure sample_thumbnail echo_model sample_text_of (lit "p")
           sample_mapping sample_image);
    vm_compute; reflexivity.
Defined.

Lemma only_last_response_parsed_witness :
  exists k' req r,
    annotation_loop sample_thumbnail echo_model sample_text_of (lit "p") sample_mapping
      sample_image sample_annotations fresh_kernel = (k', None)
    /\ last (requests k') = Some req
    /\ run_parse_cell k' = Some (parse_response r).
Proof.
  eexists.
  destruct (only_last_response_parsed sample_thumbnail echo_model sample_text_of (lit "p")
              sample_mapping sample_image sample_annotations fresh_kernel _
              ltac:(discriminate) eq_refl)
    as (req & r & Hlast & _ & Hcell).
  exists req, r. split; [reflexivity|]. split; [exact Hlast | exact Hcell].
Defined.

(** ** [read_json] on a file that cannot be JSON *)

Lemma json_loads_empty : json_loads [] = Raise (JSONDecodeError msg_value [] 0).
Proof. reflexivity. Qed.

Lemma universal_newlines_cons (c : N) (s : list N) :
  (c =? CR) = false -> universal_newlines (c :: s) = c :: universal_newlines s.
Proof. intros Hc. cbn [universal_newlines]. by rewrite Hc. Qed.

Lemma json_start_cr (c : N) : json_start c = false -> (c =? CR) = false.
Proof.
  intros Hc. destruct (c =? CR) eqn:Hcr; [|done].
  apply N.eqb_eq in Hcr. subst c. discriminate Hc.
Qed.

(** X17: for a file that is empty, or whose first character cannot
    start a JSON document, [read_json] raises the decode error for
    position 0, and its message reads
    [Invalid JSON format in file: <path>: line 1 column 1 (char 0)]. *)
Theorem read_json_rejects_other_start
    (fs : gmap (list N) (list N)) (file_path content : list N) :
  fs !! file_path = Some content ->
  match content with
  | [] => True
  | c :: _ => json_start c = false
  end ->
  exists e,
    read_json fs file_path = Raise e
    /\ e = JSONDecodeError (lit "Invalid JSON format in file: " ++ file_path)
             (universal_newlines content) 0
    /\ str_of_exn e
       = Some (lit "Invalid JSON format in file: " ++ file_path
                 ++ lit ": line 1 column 1 (char 0)").
Proof.
  intros Hfile Hstart. eexists. split; [|split; [reflexivity|]].
  - rewrite (read_json_text _ _ _ Hfile).
    unfold read_json_from. cbn [mbind result_bind].
    destruct content as [|c s].
    + change (universal_newlines []) with (@nil N).
      by rewrite json_loads_empty.
    + rewrite universal_newlines_cons by by apply json_start_cr.
      by rewrite json_loads_other_start.
  - cbn [str_of_exn take]. by rewrite <- app_assoc.
Qed.

Lemma read_json_rejects_other_start_witness :
  exists e,
    read_json html_file (lit "a.json") = Raise e
    /\ str_of_exn e
       = Some (lit "Invalid JSON format in file: " ++ lit "a.json"
                 ++ lit ": line 1 column 1 (char 0)").
Proof.
  destruct (read_json_rejects_other_start
              html_file (lit "a.json") (lit "<html>")
              ltac:(vm_compute; reflexivity) ltac:(vm_compute; reflexivity))
    as (e & Hrun & _ & Hmsg).
  exists e. split; [exact Hrun | exact Hmsg].
Defined.

(** ** [read_csv] on lines of several fields *)

Lemma cell_char_spec (c : N) :
  cell_char c = true ->
  (c =? DQUOTE) = false /\ (c =? LF) = false /\ (c =? CR) = false.
Proof.
  unfold cell_char. intros [H|H]%orb_prop.
  - apply plain_char_spec in H. tauto.
  - apply N.eqb_eq in H. subst c. by vm_compute.
Qed.

(** In an unquoted field, plain characters are added to the field. *)
Lemma parse_line_field_chars (l tail acc : list N) (done_ : list (list N)) :
  forallb plain_char l = true ->
  N.of_nat (length acc + length l) <= field_limit ->
  parse_line {| state := IN_FIELD; field := acc; fields := done_ |} (l ++ tail)
  = parse_line {| state := IN_FIELD; field := rev l ++ acc; fields := done_ |} tail.
Proof.
  revert acc. induction l as [|c l IH]; intros acc Hl Hlen; [done|].
  cbn [forallb] in Hl. apply andb_prop in Hl as [Hc Hl].
  apply plain_char_spec in Hc as (Hcomma & _ & Hlf & Hcr).
  cbn [app parse_line parse_process_char state].
  unfold is_newline. rewrite Hlf, Hcr, Hcomma. cbn [orb].
  unfold parse_add_char. cbn [field state fields].
  assert ((field_limit <=? N.of_nat (length acc)) = false) as ->.
  { apply N.leb_gt. cbn [length] in Hlen. lia. }
  cbn. rewrite IH; [|done|cbn [length] in *; lia].
  cbn [rev]. by rewrite <- app_assoc.
Qed.

(** Behind a first field, the fields that follow are put behind it. *)
Lemma parse_line_more_fields (rest acc : list N) (done_ : list (list N))
    (st : parser_state) :
  st = START_FIELD \/ st = IN_FIELD ->
  forallb cell_char rest = true ->
  N.of_nat (length acc + length rest) <= field_limit ->
  exists more,
    parse_line {| state := st; field := acc; fields := done_ |} (rest ++ [LF])
    = Ok {| state := START_RECORD; field := []; fields := more ++ done_ |}.
Proof.
  revert acc done_ st. induction rest as [|c rest IH]; intros acc done_ st Hst Hrest Hlen.
  - exists [rev acc]. by destruct Hst as [-> | ->].
  - cbn [forallb] in Hrest. apply andb_prop in Hrest as [Hc Hrest].
    pose proof (cell_char_spec c Hc) as (Hq & Hlf & Hcr).
    destruct (c =? COMMA) eqn:Hcomma.
    + destruct (IH [] (rev acc :: done_) START_FIELD (or_introl eq_refl) Hrest)
        as [more Hmore]; [cbn [length] in *; lia|].
      exists (more ++ [rev acc]). rewrite <- app_assoc. cbn [app].
      rewrite <- Hmore.
      destruct Hst as [-> | ->]; cbn [parse_line parse_process_char state];
        unfold is_newline; rewrite Hlf, Hcr, ?Hq, Hcomma; reflexivity.
    + destruct (IH (c :: acc) done_ IN_FIELD (or_intror eq_refl) Hrest)
        as [more Hmore]; [cbn [length] in *; lia|].
      exists more. rewrite <- Hmore.
      assert ((field_limit <=? N.of_nat (length acc)) = false) as Hlim.
      { apply N.leb_gt. cbn [length] in Hlen. lia. }
      destruct Hst as [-> | ->]; cbn [app parse_line parse_process_char state];
        unfold is_newline; rewrite Hlf, Hcr, ?Hq, Hcomma; cbn [orb];
        unfold parse_add_char; cbn [field state fields]; rewrite Hlim;
        reflexivity.
Qed.

Lemma parse_line_first_char (c : N) (tail : list N) :
  plain_char c = true ->
  parse_line parse_reset (c :: tail)
  = parse_line {| state := IN_FIELD; field := [c]; fields := [] |} tail.
Proof.
  intros (Hcomma & Hq & Hlf & Hcr)%plain_char_spec.
  cbn [parse_line parse_process_char parse_reset state].
  unfold is_newline. rewrite Hlf, Hcr, Hq, Hcomma. reflexivity.
Qed.

(** The row of a line of several fields starts with its first field. *)
Lemma parse_line_fields (fr : list N * list N) :
  fields_line fr = true ->
  exists r others,
    parse_line parse_reset (line_of_fields fr ++ [LF]) = Ok r
    /\ state r = START_RECORD
    /\ rev (fields r) = fr.1 :: others.
Proof.
  destruct fr as [first rest]. unfold fields_line, line_of_fields. cbn [fst snd].
  intros [[Hfirst Hrest]%andb_prop Hlen%N.leb_le]%andb_prop.
  rewrite length_app in Hlen. cbn [length] in Hlen.
  destruct first as [|c first].
  - destruct (parse_line_more_fields rest [] [[]] START_FIELD
                (or_introl eq_refl) Hrest) as [more Hmore]; [cbn; lia|].
    exists {| state := START_RECORD; field := []; fields := more ++ [[]] |}, (rev more).
    split; [exact Hmore|]. split; [done|]. cbn. by rewrite rev_app_distr.
  - cbn [forallb] in Hfirst. apply andb_prop in Hfirst as [Hc Hfirst].
    apply plain_char_spec in Hc as (Hcomma & Hq & Hlf & Hcr).
    destruct (parse_line_more_fields rest [] [c :: first] START_FIELD
                (or_introl eq_refl) Hrest) as [more Hmore]; [cbn; lia|].
    exists {| state := START_RECORD; field := []; fields := more ++ [c :: first] |},
      (rev more).
    split; [|split; [done | cbn; by rewrite rev_app_distr]].
    rewrite <- Hmore, <- app_assoc. cbn [app].
    rewrite parse_line_first_char
      by (unfold plain_char; by rewrite Hcomma, Hq, Hlf, Hcr).
    rewrite parse_line_field_chars; [|done|cbn [length] in *; lia].
    cbn [parse_line parse_process_char state].
    change (is_newline COMMA) with false. change (COMMA =? COMMA) with true.
    unfold set_state, parse_save_field.
    cbn [mbind result_bind state field fields].
    by rewrite rev_app_distr, rev_involutive.
Qed.

Lemma rows_from_fields (lines : list (list N * list N)) :
  forallb fields_line lines = true ->
  exists rows,
    rows_from parse_reset ((fun fr => line_of_fields fr ++ [LF]) <$> lines) = Ok rows
    /\ omap head rows = fst <$> lines.
Proof.
  induction lines as [|fr lines IH]; [by exists []|]. cbn [forallb].
  intros [Hl Hls]%andb_prop.
  destruct (parse_line_fields fr Hl) as (r & others & Hr & Hst & Hrow).
  destruct (IH Hls) as (rows & Hrows & Hheads).
  exists ((fr.1 :: others) :: rows). cbn [fmap list_fmap rows_from].
  rewrite Hr. cbn. rewrite Hst, Hrows. cbn. rewrite Hrow. split; [done|].
  by rewrite Hheads.
Qed.

Lemma fields_line_line_chars (fr : list N * list N) :
  fields_line fr = true -> line_chars (line_of_fields fr) = true.
Proof.
  destruct fr as [first rest]. unfold fields_line, line_of_fields. cbn [fst snd].
  intros [[Hfirst Hrest]%andb_prop _]%andb_prop.
  unfold line_chars. rewrite forallb_app. cbn [forallb].
  change (negb (is_newline COMMA)) with true. cbn [andb].
  apply andb_true_intro. split; apply forallb_forall; intros c Hc.
  - rewrite forallb_forall in Hfirst. apply Hfirst, plain_char_spec in Hc.
    destruct Hc as (_ & _ & Hlf & Hcr). unfold is_newline. by rewrite Hlf, Hcr.
  - rewrite forallb_forall in Hrest. apply Hrest, cell_char_spec in Hc.
    destruct Hc as (_ & Hlf & Hcr). unfold is_newline. by rewrite Hlf, Hcr.
Qed.

(** X18: of a line of several unquoted fields [read_csv] keeps the
    first field and nothing else; the line is kept also when its
    first field is empty, and then gives an empty label. *)
Theorem read_csv_first_column
    (fs : gmap (list N) (list N)) (file_path : list N)
    (lines : list (list N * list N)) :
  forallb fields_line lines = true ->
  fs !! file_path = Some (text_of_lines (line_of_fields <$> lines)) ->
  read_csv fs file_path = Ok (fst <$> lines).
Proof.
  intros Hlines Hfile.
  destruct (rows_from_fields lines Hlines) as (rows & Hrows & Hheads).
  rewrite <- Hheads.
  apply (read_csv_heads fs file_path _ rows Hfile).
  assert (forallb line_chars (line_of_fields <$> lines) = true) as Hchars.
  { apply forallb_forall. intros l [fr [<- Hfr]]%in_map_iff.
    apply fields_line_line_chars.
    by apply (proj1 (forallb_forall _ _) Hlines). }
  rewrite universal_newlines_no_cr by by apply text_of_lines_no_cr.
  rewrite readlines_text_of_lines by done.
  rewrite <- list_fmap_compose. exact Hrows.
Qed.

Lemma read_csv_first_column_witness :
  read_csv
    {[ lit "l.csv" := text_of_lines
                        (line_of_fields <$> [(lit "glass", lit "1,x"); ([], lit "2")]) ]}
    (lit "l.csv")
  = Ok (fst <$> [(lit "glass", lit "1,x"); ([], lit "2")]).
Proof.
  apply read_csv_first_column; vm_compute; reflexivity.
Defined.

(** ** The size of the thumbnail *)




Lemma pow2_le (a b : Z) : (a <= b)%Z -> (pow2 a <= pow2 b)%Q.
Proof. intros H. apply Qpower_le_compat_l; [done|]. discriminate. Qed.

Lemma pow2_lt (a b : Z) : (a < b)%Z -> (pow2 a < pow2 b)%Q.
Proof. intros H. apply Qpower_lt_compat_l; [done|]. reflexivity. Qed.


Lemma pow2_sub (a b : Z) : (pow2 (a - b) == pow2 a / pow2 b)%Q.
Proof. apply Qpower_minus. discriminate. Qed.








(** Rounding a positive rational [q] to binary64. *)
Section Rounding.
Variable q : Q.
Hypothesis q_pos : (0 < q)%Q.

Local Abbreviation e := (ilog2 q - 52)%Z.
Local Abbreviation X := (q / pow2 e)%Q.
Local Abbreviation M := (round_half_even X).








End Rounding.








(** On the samples the rounded operations are those of binary64 as the
    standard library defines them, and the sizes are as listed. *)
Lemma division_agrees_on_samples : forallb division_agrees quotients = true.
Proof. vm_compute. reflexivity. Qed.

Lemma arithmetic_agrees_on_samples : forallb arithmetic_agrees operand_pairs = true.
Proof. vm_compute. reflexivity. Qed.

Lemma thumbnail_size_on_samples : forallb size_agrees thumbnail_samples = true.
Proof. vm_compute. reflexivity. Qed.


(** A picture that is at least as high as wide, and higher than 256:
    the height becomes 256 and the width is scaled. *)
Section Portrait.
Variables width height : Z.
Hypothesis width_range : (1 <= width < 2 ^ 31)%Z.
Hypothesis height_range : (256 < height < 2 ^ 31)%Z.
Hypothesis portrait : (width <= height)%Z.

Local Abbreviation wd := (inject_Z width).
Local Abbreviation ht := (inject_Z height).
Local Abbreviation aspect := (truediv wd ht).
Local Abbreviation number := (float_mul (inject_Z 256) aspect).




End Portrait.

(** A picture that is wider than high, and wider than 256: the width
    becomes 256 and the height is scaled. *)
Section Landscape.
Variables width height : Z.
Hypothesis width_range : (256 < width < 2 ^ 31)%Z.
Hypothesis height_range : (1 <= height < 2 ^ 31)%Z.
Hypothesis landscape : (height < width)%Z.

Local Abbreviation wd := (inject_Z width).
Local Abbreviation ht := (inject_Z height).
Local Abbreviation aspect := (truediv wd ht).
Local Abbreviation number := (truediv (inject_Z 256) aspect).




End Landscape.






